(** * homebridge-sonoff-diy-mini: the command queue and the state poller

    A shallow embedding of [src/index.js]: the [Queue] class (two lanes of
    callbacks, the [inProgress] flag, the cooldown timer) and the
    [SwitchAccessory] class (set and get handlers, the poller [loadState],
    the two device calls [setOn] and [getOn]).

    The program runs on one event loop.  A macrotask of that loop is an
    [Event] here, and [step] runs one macrotask together with the promise
    reactions it triggers: no timer and no HTTP completion can fall between
    the settling of a promise and the reactions chained on it. *)

From Stdlib Require Import ZArith QArith Qround String List Lia Bool.
From stdpp Require Import base option list.
Import ListNotations.

Open Scope string_scope.
Open Scope list_scope.
Open Scope Z_scope.

(** ** JavaScript values carried by HTTP response bodies *)

(** Numbers of a response body are the integers of a JSON document; the
    only thing the program asks of a number is whether it is zero. *)
#[warnings="-register-all"]
Inductive JsVal : Type :=
| JUndefined
| JNull
| JBool (b : bool)
| JNum (n : Z)
| JStr (s : string)
| JArr (items : list JsVal)
| JObj (props : list (string * JsVal)).

(** [if (v)]: the falsy values are undefined, null, false, 0 and the empty
    string. *)
Definition truthy (v : JsVal) : bool :=
  match v with
  | JUndefined | JNull => false
  | JBool b => b
  | JNum n => negb (n =? 0)
  | JStr s => negb (String.eqb s "")
  | JArr _ | JObj _ => true
  end.

(** What a promise is rejected with. *)
Inductive Reason : Type :=
| AxiosError (message : string)   (* axios.post rejected *)
| TypeError                       (* property read on undefined or null *)
| Thrown (v : JsVal).             (* Promise.reject(v) *)

Inductive Settled (A : Type) : Type :=
| Fulfilled (a : A)
| Rejected (r : Reason).
Arguments Fulfilled {A} a.
Arguments Rejected {A} r.

Definition and_then {A B : Type} (p : Settled A) (f : A -> Settled B) : Settled B :=
  match p with
  | Fulfilled a => f a
  | Rejected r => Rejected r
  end.

(** The three property names the source reads off a response. None of them
    is an own or inherited property of a string, a number, a boolean or an
    array, so reading one off such a value gives undefined. *)
Inductive Field : Type := f_error | f_data | f_switch.

Definition field_name (f : Field) : string :=
  match f with
  | f_error => "error"
  | f_data => "data"
  | f_switch => "switch"
  end.

Fixpoint own_prop (k : string) (props : list (string * JsVal)) : JsVal :=
  match props with
  | [] => JUndefined
  | (k', v) :: rest => if String.eqb k' k then v else own_prop k rest
  end.

(** [v.f], and each name of a destructuring pattern [{f} = v]. *)
Definition get_field (v : JsVal) (f : Field) : Settled JsVal :=
  match v with
  | JUndefined | JNull => Rejected TypeError
  | JObj props => Fulfilled (own_prop (field_name f) props)
  | JBool _ | JNum _ | JStr _ | JArr _ => Fulfilled JUndefined
  end.

(** [x === "on"] *)
Definition is_on (v : JsVal) : bool :=
  match v with
  | JStr s => String.eqb s "on"
  | _ => false
  end.

(** The [.then] callback of [getOn], lines 111-119. *)
Definition getOn_then (result : JsVal) : Settled bool :=
  and_then (get_field result f_error) (fun error =>
  and_then (get_field result f_data) (fun data =>
    if truthy error then Rejected (Thrown error)
    else and_then (get_field data f_switch) (fun sw => Fulfilled (is_on sw)))).

(** [getOn] once the request has settled with [r]: the rejection of
    [this.request] passes through the [.then] untouched. *)
Definition getOn_settled (r : Settled JsVal) : Settled bool :=
  and_then r getOn_then.

(** ** Numbers handed to the timer functions *)

Inductive JsNum : Type :=
| Fin (z : Z)
| Infinity.

(** [Math.ceil(1000 / frequency)], line 158, for an integer [frequency].
    For an integer divisor the double-precision quotient lies on the same
    side of every integer as the exact quotient, so the exact ceiling is
    what [Math.ceil] returns; [1000 / 0] is [Infinity]. *)
Definition timeout_of (frequency : Z) : JsNum :=
  if frequency =? 0 then Infinity
  else Fin (Qceiling (inject_Z 1000 / inject_Z frequency)).

Definition TIMEOUT_MAX : Z := 2147483647.

(** Node replaces a delay outside [1, TIMEOUT_MAX] by 1 ms. *)
Definition timer_delay (after : JsNum) : Z :=
  match after with
  | Fin z => if (1 <=? z) && (z <=? TIMEOUT_MAX) then z else 1
  | Infinity => 1
  end.

Definition POLLING_INTERVAL : Z := 5000.

(** ** The program state *)

(** The two closures the accessory hands to its queue: the arrow function
    of [setOnCharacteristicHandler] (lines 73-80), closed over [value] and
    HomeKit's [callback], and the one of [loadState] (lines 131-138).
    HomeKit's callbacks are opaque and return normally; a natural number
    names each. *)
Inductive Task : Type :=
| SetOnTask (value : bool) (callback : nat)
| PollTask.

Inductive LogMsg : Type :=
| QueueCreated (frequency : Z) (timeout : JsNum)
| ImmediateCallbackAdded
| ImmediateRequestFound
| RequestFound
| HandlingSet (value : bool)
| HandlingGet
| StartedRefreshing (interval : Z)
| ExternalStateChange (newState : bool).

(** Calls that leave the program, in the order they are made. *)
Inductive Obs : Type :=
| Post (path : string) (body : JsVal)           (* axios.post(url, data) *)
| SetCallback (callback : nat) (err : option Reason)
| GetCallback (callback : nat) (value : option bool)
| UpdateValue (value : bool)                    (* onCharacteristic.updateValue *)
| Log (m : LogMsg)
| LogError (r : Reason).

(** class Queue, lines 150-161; [log] is the accessory's logger and is
    accounted for by [Log] observations. *)
Record Queue : Type := mkQueue {
  requests : list Task;
  immediateRequests : list Task;
  inProgress : bool;
  wait : Z
}.

Inductive IntervalCallback : Type :=
| cb_iteration     (* this.iteration, registered at line 159 *)
| cb_loadState.    (* this.loadState, registered at line 126 *)

Record Interval : Type := mkInterval {
  next_due : Z;
  period : Z;
  callback_of : IntervalCallback
}.

(** [state] is [this.state], undefined until its first assignment.
    [inflight] lists the tasks whose HTTP request has been sent and has not
    settled; [timeouts] the due times of the pending
    [() => this.inProgress = false] callbacks of line 182.  [lastSettled] is
    bookkeeping of the model, not program state: the time at which the most
    recent task settled.  No transition reads it. *)
Record World : Type := mkWorld {
  queue : Queue;
  state : option bool;
  inflight : list Task;
  intervals : list Interval;
  timeouts : list Z;
  now : Z;
  out : list Obs;
  lastSettled : option Z
}.

Definition with_queue (q : Queue) (w : World) : World :=
  mkWorld q (state w) (inflight w) (intervals w) (timeouts w) (now w) (out w) (lastSettled w).
Definition with_state (s : option bool) (w : World) : World :=
  mkWorld (queue w) s (inflight w) (intervals w) (timeouts w) (now w) (out w) (lastSettled w).
Definition with_inflight (l : list Task) (w : World) : World :=
  mkWorld (queue w) (state w) l (intervals w) (timeouts w) (now w) (out w) (lastSettled w).
Definition with_intervals (l : list Interval) (w : World) : World :=
  mkWorld (queue w) (state w) (inflight w) l (timeouts w) (now w) (out w) (lastSettled w).
Definition with_timeouts (l : list Z) (w : World) : World :=
  mkWorld (queue w) (state w) (inflight w) (intervals w) l (now w) (out w) (lastSettled w).
Definition with_now (t : Z) (w : World) : World :=
  mkWorld (queue w) (state w) (inflight w) (intervals w) (timeouts w) t (out w) (lastSettled w).
Definition with_lastSettled (t : option Z) (w : World) : World :=
  mkWorld (queue w) (state w) (inflight w) (intervals w) (timeouts w) (now w) (out w) t.

Definition emit (o : Obs) (w : World) : World :=
  mkWorld (queue w) (state w) (inflight w) (intervals w) (timeouts w) (now w)
          (out w ++ [o]) (lastSettled w).
Definition log (m : LogMsg) : World -> World := emit (Log m).

Definition set_requests (l : list Task) (w : World) : World :=
  with_queue (mkQueue l (immediateRequests (queue w)) (inProgress (queue w)) (wait (queue w))) w.
Definition set_immediateRequests (l : list Task) (w : World) : World :=
  with_queue (mkQueue (requests (queue w)) l (inProgress (queue w)) (wait (queue w))) w.
Definition set_inProgress (b : bool) (w : World) : World :=
  with_queue (mkQueue (requests (queue w)) (immediateRequests (queue w)) b (wait (queue w))) w.

(** [setTimeout(() => this.inProgress = false, delay)] *)
Definition setTimeout (delay : Z) (w : World) : World :=
  with_timeouts (timeouts w ++ [now w + timer_delay (Fin delay)]) w.

Definition setInterval (cb : IntervalCallback) (delay : JsNum) (w : World) : World :=
  with_intervals
    (intervals w ++ [mkInterval (now w + timer_delay delay) (timer_delay delay) cb]) w.

(** ** SwitchAccessory: the device calls *)

(** [request(path, data)], lines 141-147, called on behalf of [t]: the POST
    leaves at once and [t] waits for it to settle. *)
Definition request (path : string) (data : JsVal) (t : Task) (w : World) : World :=
  emit (Post path data) (with_inflight (inflight w ++ [t]) w).

(** [setOn(value)], lines 101-107. *)
Definition setOn (value : bool) : Task -> World -> World :=
  request "/zeroconf/switch"
    (JObj [("data", JObj [("switch", JStr (if value then "on" else "off"))])]).

(** [getOn()], line 110; its [.then] is [getOn_then]. *)
Definition getOn : Task -> World -> World :=
  request "/zeroconf/info" (JObj [("data", JObj [])]).

(** [cb()] up to its first suspension. *)
Definition call (cb : Task) (w : World) : World :=
  match cb with
  | SetOnTask value _ => setOn value cb w
  | PollTask => getOn cb w
  end.

(** The rest of [cb] once its request has settled with [r], and how the
    promise [cb()] returned settles.  For the set closure: [.then] assigns
    [this.state] and calls [callback(null)], [.catch(callback)] turns a
    rejection into a fulfilment.  For the poll closure: lines 132-137. *)
Definition resume (cb : Task) (r : Settled JsVal) (w : World) : World * Settled unit :=
  match cb with
  | SetOnTask value callback =>
      match r with
      | Fulfilled _ =>
          (emit (SetCallback callback None) (with_state (Some value) w), Fulfilled tt)
      | Rejected e =>
          (emit (SetCallback callback (Some e)) w, Fulfilled tt)
      end
  | PollTask =>
      match getOn_settled r with
      | Fulfilled newState =>
          if decide (state w = Some newState) then (w, Fulfilled tt)
          else (log (ExternalStateChange newState)
                  (emit (UpdateValue newState) (with_state (Some newState) w)),
                Fulfilled tt)
      | Rejected e => (w, Rejected e)
      end
  end.

(** ** Queue: the methods *)

(** [immediate(cb)], lines 163-166. *)
Definition immediate (cb : Task) (w : World) : World :=
  let w := log ImmediateCallbackAdded w in
  set_immediateRequests (immediateRequests (queue w) ++ [cb]) w.

(** [run(cb)] up to [await cb()], lines 175-177. *)
Definition run (cb : Task) (w : World) : World :=
  call cb (set_inProgress true w).

(** [run(cb)] from the settling of [cb()] on: [catch] and [finally], lines
    179-183. *)
Definition run_settled (outcome : Settled unit) (w : World) : World :=
  let w := match outcome with
           | Fulfilled _ => w
           | Rejected e => emit (LogError e) w
           end in
  setTimeout (wait (queue w)) (with_lastSettled (Some (now w)) w).

(** [attempt(cb)], lines 168-172. *)
Definition attempt (cb : Task) (w : World) : World :=
  if negb (inProgress (queue w)) then run cb w else w.

(** [iteration], lines 186-200.  [a.length > 0] followed by [a.shift()] is
    the match on a non-empty list. *)
Definition iteration (w : World) : World :=
  if inProgress (queue w) then w
  else
    match immediateRequests (queue w) with
    | cb :: rest =>
        let w := log ImmediateRequestFound w in
        run cb (set_immediateRequests rest w)
    | [] =>
        match requests (queue w) with
        | cb :: rest =>
            let w := log RequestFound w in
            run cb (set_requests rest w)
        | [] => w
        end
    end.

(** ** SwitchAccessory: handlers and poller *)

(** lines 66-81 *)
Definition setOnCharacteristicHandler (value : bool) (callback : nat) (w : World) : World :=
  immediate (SetOnTask value callback) (log (HandlingSet value) w).

(** lines 83-99 *)
Definition getOnCharacteristicHandler (callback : nat) (w : World) : World :=
  emit (GetCallback callback (state w)) (log HandlingGet w).

(** lines 130-139 *)
Definition loadState (w : World) : World :=
  attempt PollTask w.

(** lines 122-128 *)
Definition trackState (w : World) : World :=
  log (StartedRefreshing POLLING_INTERVAL)
      (setInterval cb_loadState (Fin POLLING_INTERVAL) w).

(** [new Queue(log, frequency, wait)] on a fresh process, lines 151-161. *)
Definition Queue_new (frequency wait_ms : Z) : World :=
  let w := mkWorld (mkQueue [] [] false wait_ms) None [] [] [] 0 [] None in
  let timeout := timeout_of frequency in
  log (QueueCreated frequency timeout) (setInterval cb_iteration timeout w).

(** The accessory once Homebridge has constructed it and called
    [getServices]: the queue exists, both handlers are registered and the
    poller runs.  [boot 2 100] is the program, line 36. *)
Definition boot (frequency wait_ms : Z) : World :=
  trackState (Queue_new frequency wait_ms).

Definition world0 : World := boot 2 100.

(** ** The event loop *)

Inductive Event : Type :=
| Advance (d : Z)                            (* [d] ms pass *)
| FireInterval (i : nat)                     (* the [i]-th interval comes due *)
| FireTimeout (i : nat)                      (* the [i]-th timeout comes due *)
| Settle (i : nat) (r : Settled JsVal)       (* the [i]-th request settles *)
| HomeKitSet (value : bool) (callback : nat)
| HomeKitGet (callback : nat).

Definition fire (cb : IntervalCallback) : World -> World :=
  match cb with
  | cb_iteration => iteration
  | cb_loadState => loadState
  end.

(** One macrotask; [None] when the loop cannot run it now (a timer that is
    not due, a request that does not exist, time running backwards). *)
Definition step (w : World) (ev : Event) : option World :=
  match ev with
  | Advance d =>
      if 0 <=? d then Some (with_now (now w + d) w) else None
  | FireInterval i =>
      match intervals w !! i with
      | Some t =>
          if next_due t <=? now w then
            let t' := mkInterval (now w + period t) (period t) (callback_of t) in
            Some (fire (callback_of t) (with_intervals (<[i := t']> (intervals w)) w))
          else None
      | None => None
      end
  | FireTimeout i =>
      match timeouts w !! i with
      | Some due =>
          if due <=? now w then
            Some (set_inProgress false (with_timeouts (delete i (timeouts w)) w))
          else None
      | None => None
      end
  | Settle i r =>
      match inflight w !! i with
      | Some cb =>
          let '(w', outcome) := resume cb r (with_inflight (delete i (inflight w)) w) in
          Some (run_settled outcome w')
      | None => None
      end
  | HomeKitSet value callback => Some (setOnCharacteristicHandler value callback w)
  | HomeKitGet callback => Some (getOnCharacteristicHandler callback w)
  end.

Fixpoint exec (w : World) (evs : list Event) : option World :=
  match evs with
  | [] => Some w
  | ev :: rest =>
      match step w ev with
      | Some w' => exec w' rest
      | None => None
      end
  end.

Definition reachable_from (w0 w : World) : Prop :=
  exists evs, exec w0 evs = Some w.

(** ** Reading the device's answers *)

Definition nullish (v : JsVal) : bool :=
  match v with
  | JUndefined | JNull => true
  | _ => false
  end.

(** The value of property [f] of [v] where [v] can be read from. *)
Definition prop_of (v : JsVal) (f : Field) : JsVal :=
  match v with
  | JObj props => own_prop (field_name f) props
  | _ => JUndefined
  end.



(** An answer of the device's firmware to a successful query. *)
Definition info_body (sw : string) : JsVal :=
  JObj [("seq", JNum 2); ("error", JNum 0); ("data", JObj [("switch", JStr sw)])].


(** ** Observing a run *)

(** The values of the change notifications raised so far. *)
Definition notifications (w : World) : list bool :=
  omap (fun o => match o with UpdateValue v => Some v | _ => None end) (out w).

(** The POSTs sent so far. *)
Definition device_calls (w : World) : list (string * JsVal) :=
  omap (fun o => match o with Post path body => Some (path, body) | _ => None end) (out w).

(** One poll cycle on an idle queue: the poller fires, its request settles
    with [r], the cooldown passes and its timer fires. *)
Definition poll_cycle (r : Settled JsVal) (w : World) : option World :=
  exec (loadState w)
       [Settle 0 r; Advance (timer_delay (Fin (wait (queue w)))); FireTimeout 0].

(** A task starts in the step from [w] to [w']. *)
Definition starts_task (w w' : World) : Prop :=
  length (inflight w') = S (length (inflight w)).

(** The accessory after one successful [set(true)]: the cache holds on and
    the queue is idle again. *)
Definition set_on_events : list Event :=
  [HomeKitSet true 7; Advance 500; FireInterval 0;
   Settle 0 (Fulfilled (JObj [("seq", JNum 1); ("error", JNum 0)]));
   Advance 100; FireTimeout 0].

Definition world_on : World :=
  Eval vm_compute in default world0 (exec world0 set_on_events).

(** ** The invariant of the event loop *)

(** Where the queue stands: idle; one task running, no cooldown pending; or
    no task running and the one cooldown timer of the last task pending. *)
Inductive Phase (wt : Z) (w : World) : Prop :=
| phase_idle :
    inProgress (queue w) = false -> inflight w = [] -> timeouts w = [] ->
    (forall t, lastSettled w = Some t -> t + timer_delay (Fin wt) <= now w) ->
    Phase wt w
| phase_running (cb : Task) :
    inProgress (queue w) = true -> inflight w = [cb] -> timeouts w = [] ->
    Phase wt w
| phase_cooling (t : Z) :
    inProgress (queue w) = true -> inflight w = [] ->
    lastSettled w = Some t -> timeouts w = [t + timer_delay (Fin wt)] ->
    t <= now w ->
    Phase wt w.

Record Inv (wt : Z) (w : World) : Prop := mkInv {
  inv_wait : wait (queue w) = wt;
  inv_requests : requests (queue w) = [];
  inv_log : ~ In (Log RequestFound) (out w);
  inv_phase : Phase wt w
}.

(** [iteration] without its queued-lane branch (lines 195-199). *)
Definition iteration_immediate_only (w : World) : World :=
  if inProgress (queue w) then w
  else
    match immediateRequests (queue w) with
    | cb :: rest =>
        let w := log ImmediateRequestFound w in
        run cb (set_immediateRequests rest w)
    | [] => w
    end.

Definition is_settle (ev : Event) : bool :=
  match ev with
  | Settle _ _ => true
  | _ => false
  end.

(** The accessory while the first set request is in flight, after that
    request has failed, and idle just before the first poll fires. *)
Definition world_running : World :=
  Eval vm_compute in
    default world0 (exec world0 [HomeKitSet true 7; Advance 500; FireInterval 0]).

Definition world_cooling : World :=
  Eval vm_compute in
    default world_running
      (step world_running (Settle 0 (Rejected (AxiosError "ETIMEDOUT")))).

Definition world_before_poll : World :=
  Eval vm_compute in default world0 (exec world0 (set_on_events ++ [Advance 4400])).

(** ** More observations of a run *)

(** The HomeKit callback a closure holds, if it holds one. *)
Definition callback_in (t : Task) : option nat :=
  match t with
  | SetOnTask _ callback => Some callback
  | PollTask => None
  end.

(** The set callbacks called so far, in the order of the calls. *)
Definition answered (w : World) : list nat :=
  omap (fun o => match o with SetCallback callback _ => Some callback | _ => None end)
       (out w).

(** The set callbacks HomeKit has handed over in a run of events. *)
Definition submitted (evs : list Event) : list nat :=
  omap (fun ev => match ev with HomeKitSet _ callback => Some callback | _ => None end) evs.

(** The closures [setOnCharacteristicHandler] builds in a run of events. *)
Definition submitted_tasks (evs : list Event) : list Task :=
  omap (fun ev => match ev with
                  | HomeKitSet value callback => Some (SetOnTask value callback)
                  | _ => None
                  end) evs.

(** Set callbacks in the order HomeKit will see them answered: those
    already called, the one whose request is in flight, those waiting in
    the immediate lane. *)
Definition callback_order (w : World) : list nat :=
  answered w ++ omap callback_in (inflight w)
             ++ omap callback_in (immediateRequests (queue w)).

(** The arguments of the [log.error] calls so far. *)
Definition errors_logged (w : World) : list Reason :=
  omap (fun o => match o with LogError e => Some e | _ => None end) (out w).

(** The body [setOn(value)] posts, lines 102-106. *)
Definition switch_body (value : bool) : JsVal :=
  JObj [("data", JObj [("switch", JStr (if value then "on" else "off"))])].

Definition no_settle (evs : list Event) : bool :=
  forallb (fun ev => negb (is_settle ev)) evs.

Definition is_object (v : JsVal) : bool :=
  match v with
  | JObj _ => true
  | _ => false
  end.

(** The period of the tick interval [new Queue(log, frequency, wait)]
    registers. *)
Definition tick_period (frequency : Z) : Z := timer_delay (timeout_of frequency).

(** Only set closures wait in the immediate lane. *)
Definition lane_holds_sets (w : World) : Prop :=
  Forall (fun t => t <> PollTask) (immediateRequests (queue w)).

(** The two intervals of the program: the queue's tick and the poller. *)
Definition program_intervals (frequency : Z) (w : World) : Prop :=
  exists d1 d2,
    intervals w = [mkInterval d1 (tick_period frequency) cb_iteration;
                   mkInterval d2 POLLING_INTERVAL cb_loadState].

(** The POST a closure sends when it is called: lines 102-106 for the set
    closure, line 110 for the poll closure. *)
Definition request_of (cb : Task) : string * JsVal :=
  match cb with
  | SetOnTask value _ => ("/zeroconf/switch", switch_body value)
  | PollTask => ("/zeroconf/info", JObj [("data", JObj [])])
  end.
(** * Properties *)

Lemma get_field_prop_of (v : JsVal) (f : Field) :
  nullish v = false -> get_field v f = Fulfilled (prop_of v f).
Proof. destruct v; simpl; intros H; try reflexivity; discriminate H. Qed.

Lemma get_field_nullish (v : JsVal) (f : Field) :
  nullish v = true -> get_field v f = Rejected TypeError.
Proof. destruct v; simpl; intros H; try reflexivity; discriminate H. Qed.

(** [getOn] case by case, on the settled request. *)
Lemma getOn_settled_cases (r : Settled JsVal) :
  getOn_settled r =
    match r with
    | Rejected e => Rejected e
    | Fulfilled body =>
        if nullish body then Rejected TypeError
        else if truthy (prop_of body f_error) then Rejected (Thrown (prop_of body f_error))
        else if nullish (prop_of body f_data) then Rejected TypeError
        else Fulfilled (is_on (prop_of (prop_of body f_data) f_switch))
    end.
Proof.
  destruct r as [body|e]; [|reflexivity].
  unfold getOn_settled, and_then, getOn_then.
  destruct (nullish body) eqn:Hb.
  - rewrite (get_field_nullish body f_error Hb). reflexivity.
  - rewrite !(get_field_prop_of body) by exact Hb. unfold and_then.
    destruct (truthy (prop_of body f_error)); [reflexivity|].
    destruct (nullish (prop_of body f_data)) eqn:Hd.
    + rewrite (get_field_nullish _ f_switch Hd). reflexivity.
    + rewrite (get_field_prop_of _ f_switch Hd). reflexivity.
Qed.




(** ** The set path *)

Tactic Notation "destruct_world" constr(w) :=
  destruct w as [[w_rq w_iq w_busy w_wait] w_st w_inf w_ints w_tos w_now w_out w_ls];
  simpl in *.

Lemma setOn_posts (value : bool) (callback : nat) (w : World) :
  out (call (SetOnTask value callback) w) =
    out w ++ [Post "/zeroconf/switch"
                (JObj [("data", JObj [("switch", JStr (if value then "on" else "off"))])])].
Proof. reflexivity. Qed.

(** C7: whatever the POST to /zeroconf/switch resolves with, the set
    closure stores the requested value and calls back with null; the
    callback receives an error only when the request itself is rejected,
    and then the cached state is not touched. *)
Theorem set_ignores_response_body
    (w : World) (i : nat) (value : bool) (callback : nat) (r : Settled JsVal) :
  inflight w !! i = Some (SetOnTask value callback) ->
  exists w', step w (Settle i r) = Some w' /\
    out w' = out w ++ [SetCallback callback
                         (match r with Fulfilled _ => None | Rejected e => Some e end)] /\
    state w' = (match r with Fulfilled _ => Some value | Rejected _ => state w end) /\
    device_calls w' = device_calls w.
Proof.
  intros Hi. unfold step. rewrite Hi.
  destruct r as [body|e]; simpl; eexists; (split; [reflexivity|]); simpl;
    repeat split; unfold device_calls; simpl;
    rewrite omap_app; simpl; apply app_nil_r.
Qed.

Lemma set_ignores_response_body_witness :
  exists w', step (run (SetOnTask true 7) world0)
                  (Settle 0 (Fulfilled (JObj [("seq", JNum 1); ("error", JNum 400)])))
             = Some w' /\
    out w' = out (run (SetOnTask true 7) world0) ++ [SetCallback 7 None] /\
    state w' = Some true /\
    device_calls w' = device_calls (run (SetOnTask true 7) world0).
Proof.
  apply (set_ignores_response_body (run (SetOnTask true 7) world0) 0 true 7
           (Fulfilled (JObj [("seq", JNum 1); ("error", JNum 400)]))).
  reflexivity.
Defined.

(** ** The poll path *)

Lemma poll_settle (w : World) (i : nat) (r : Settled JsVal) (b : bool) :
  inflight w !! i = Some PollTask ->
  getOn_settled r = Fulfilled b ->
  exists w', step w (Settle i r) = Some w' /\
    (state w = Some b -> state w' = state w /\ out w' = out w) /\
    (state w <> Some b ->
       state w' = Some b /\
       out w' = out w ++ [UpdateValue b; Log (ExternalStateChange b)]).
Proof.
  intros Hi Hr. unfold step. rewrite Hi. unfold resume. simpl. rewrite Hr.
  destruct (decide (state w = Some b)) as [Heq|Hne]; eexists; (split; [reflexivity|]);
    simpl; split; intros H; try contradiction; try (split; [reflexivity|]).
  - reflexivity.
  - rewrite <- app_assoc. reflexivity.
Qed.

Lemma timer_delay_pos (a : JsNum) : 1 <= timer_delay a.
Proof.
  destruct a as [z|]; simpl; [|lia].
  destruct (1 <=? z) eqn:E1; simpl; [|lia].
  destruct (z <=? TIMEOUT_MAX); [|lia]. apply Z.leb_le. exact E1.
Qed.

Lemma timer_delay_in_range (z : Z) :
  1 <= z <= TIMEOUT_MAX -> timer_delay (Fin z) = z.
Proof.
  intros [H1 H2]. simpl.
  apply Z.leb_le in H1, H2. rewrite H1, H2. reflexivity.
Qed.

Arguments timer_delay : simpl never.

(** A poll cycle on an idle queue runs to the end and leaves the queue
    idle; it notifies exactly when the value read differs from the cache. *)
Lemma poll_cycle_idle (r : Settled JsVal) (b : bool) (w : World) :
  inProgress (queue w) = false -> inflight w = [] -> timeouts w = [] ->
  getOn_settled r = Fulfilled b ->
  exists w', poll_cycle r w = Some w' /\
    inProgress (queue w') = false /\ inflight w' = [] /\ timeouts w' = [] /\
    state w' = Some b /\
    notifications w' =
      notifications w ++ (if decide (state w = Some b) then [] else [b]).
Proof.
  intros Hbusy Hin Hto Hr.
  destruct_world w. subst.
  unfold poll_cycle, loadState, attempt. simpl.
  unfold resume. simpl. rewrite Hr.
  assert (Hd : (0 <=? timer_delay (Fin w_wait)) = true).
  { apply Z.leb_le. pose proof (timer_delay_pos (Fin w_wait)). lia. }
  destruct (decide (w_st = Some b)) as [Heq|Hne]; simpl;
    rewrite Hd; simpl; rewrite Z.leb_refl; eexists; (split; [reflexivity|]); simpl;
    repeat split; try assumption.
  - unfold notifications. simpl. rewrite !omap_app. reflexivity.
  - unfold notifications. simpl. rewrite !omap_app. simpl.
    rewrite <- !app_assoc. reflexivity.
Qed.

(** C5: a successful poll whose value equals the cache changes nothing and
    notifies nobody; one whose value differs stores the value and raises
    exactly one notification carrying it.  With the cache at on and the
    device answering on, on, off in three successive cycles, the only
    notification is the one of the third cycle, with value false. *)
Theorem poll_change_detection
    (w : World) (i : nat) (r : Settled JsVal) (b : bool)
    (v : World) (r1 r2 r3 : Settled JsVal) :
  (inflight w !! i = Some PollTask -> getOn_settled r = Fulfilled b ->
   exists w', step w (Settle i r) = Some w' /\
     (state w = Some b ->
        state w' = state w /\ out w' = out w /\ notifications w' = notifications w) /\
     (state w <> Some b ->
        state w' = Some b /\
        out w' = out w ++ [UpdateValue b; Log (ExternalStateChange b)] /\
        notifications w' = notifications w ++ [b])) /\
  (state v = Some true ->
   inProgress (queue v) = false -> inflight v = [] -> timeouts v = [] ->
   getOn_settled r1 = Fulfilled true ->
   getOn_settled r2 = Fulfilled true ->
   getOn_settled r3 = Fulfilled false ->
   exists v1 v2 v3,
     poll_cycle r1 v = Some v1 /\ poll_cycle r2 v1 = Some v2 /\
     poll_cycle r3 v2 = Some v3 /\
     notifications v1 = notifications v /\
     notifications v2 = notifications v /\
     notifications v3 = notifications v ++ [false] /\
     state v3 = Some false).
Proof.
  split.
  - intros Hi Hr. destruct (poll_settle w i r b Hi Hr) as (w' & Hstep & Heq & Hne).
    exists w'. split; [exact Hstep|]. split.
    + intros H. destruct (Heq H) as [Hs Ho]. repeat split; try assumption.
      unfold notifications. rewrite Ho. reflexivity.
    + intros H. destruct (Hne H) as [Hs Ho]. repeat split; try assumption.
      unfold notifications. rewrite Ho, omap_app. reflexivity.
  - intros Hs Hb Hi Ht H1 H2 H3.
    destruct (poll_cycle_idle r1 true v Hb Hi Ht H1)
      as (v1 & E1 & Hb1 & Hi1 & Ht1 & Hs1 & N1).
    destruct (poll_cycle_idle r2 true v1 Hb1 Hi1 Ht1 H2)
      as (v2 & E2 & Hb2 & Hi2 & Ht2 & Hs2 & N2).
    destruct (poll_cycle_idle r3 false v2 Hb2 Hi2 Ht2 H3)
      as (v3 & E3 & Hb3 & Hi3 & Ht3 & Hs3 & N3).
    exists v1, v2, v3.
    rewrite Hs in N1. rewrite Hs1 in N2. rewrite Hs2 in N3.
    rewrite decide_True in N1 by reflexivity.
    rewrite decide_True in N2 by reflexivity.
    rewrite decide_False in N3 by discriminate.
    rewrite app_nil_r in N1, N2.
    repeat split; try assumption; congruence.
Qed.

Lemma poll_change_detection_witness :
  (exists w', step (run PollTask world_on) (Settle 0 (Fulfilled (info_body "off"))) = Some w' /\
     (state (run PollTask world_on) = Some false ->
        state w' = state (run PollTask world_on) /\
        out w' = out (run PollTask world_on) /\
        notifications w' = notifications (run PollTask world_on)) /\
     (state (run PollTask world_on) <> Some false ->
        state w' = Some false /\
        out w' = out (run PollTask world_on)
                   ++ [UpdateValue false; Log (ExternalStateChange false)] /\
        notifications w' = notifications (run PollTask world_on) ++ [false])) /\
  (exists v1 v2 v3,
     poll_cycle (Fulfilled (info_body "on")) world_on = Some v1 /\
     poll_cycle (Fulfilled (info_body "on")) v1 = Some v2 /\
     poll_cycle (Fulfilled (info_body "off")) v2 = Some v3 /\
     notifications v1 = notifications world_on /\
     notifications v2 = notifications world_on /\
     notifications v3 = notifications world_on ++ [false] /\
     state v3 = Some false).
Proof.
  destruct (poll_change_detection (run PollTask world_on) 0
              (Fulfilled (info_body "off")) false world_on
              (Fulfilled (info_body "on")) (Fulfilled (info_body "on"))
              (Fulfilled (info_body "off"))) as [H1 H2].
  split.
  - apply H1; reflexivity.
  - apply H2; reflexivity.
Defined.

(** ** The queue's methods *)

Lemma run_effect (cb : Task) (w : World) :
  inProgress (queue (run cb w)) = true /\
  inflight (run cb w) = inflight w ++ [cb] /\
  requests (queue (run cb w)) = requests (queue w) /\
  immediateRequests (queue (run cb w)) = immediateRequests (queue w) /\
  state (run cb w) = state w /\
  timeouts (run cb w) = timeouts w /\
  exists path body, out (run cb w) = out w ++ [Post path body] /\
                    device_calls (run cb w) = device_calls w ++ [(path, body)].
Proof.
  destruct cb as [value callback|]; simpl; repeat split; eexists; eexists;
    (split; [reflexivity|]); unfold device_calls; simpl; rewrite omap_app; reflexivity.
Qed.

(** C4: one tick of the scheduling loop.  Busy: nothing.  Otherwise the
    front of the immediate lane is removed and run; with that lane empty,
    the front of the queued lane is removed and run; with both empty,
    nothing.  Running the task means: the queue turns busy, the task is
    called and its POST leaves within the tick, after the tick's log line,
    and the task is in flight; cache and timers are as they were.  With
    both lanes non-empty the task started is the front of the immediate
    lane, and the queued lane is left as it was. *)
Theorem tick_dispatch (w : World) :
  (inProgress (queue w) = true -> iteration w = w) /\
  (inProgress (queue w) = false ->
   forall cb rest, immediateRequests (queue w) = cb :: rest ->
     iteration w = run cb (set_immediateRequests rest (log ImmediateRequestFound w)) /\
     inProgress (queue (iteration w)) = true /\
     inflight (iteration w) = inflight w ++ [cb] /\
     immediateRequests (queue (iteration w)) = rest /\
     requests (queue (iteration w)) = requests (queue w) /\
     out (iteration w) =
       out w ++ [Log ImmediateRequestFound;
                 Post (fst (request_of cb)) (snd (request_of cb))] /\
     device_calls (iteration w) = device_calls w ++ [request_of cb] /\
     state (iteration w) = state w /\
     timeouts (iteration w) = timeouts w) /\
  (inProgress (queue w) = false -> immediateRequests (queue w) = [] ->
   forall cb rest, requests (queue w) = cb :: rest ->
     iteration w = run cb (set_requests rest (log RequestFound w)) /\
     inProgress (queue (iteration w)) = true /\
     inflight (iteration w) = inflight w ++ [cb] /\
     immediateRequests (queue (iteration w)) = [] /\
     requests (queue (iteration w)) = rest /\
     out (iteration w) =
       out w ++ [Log RequestFound;
                 Post (fst (request_of cb)) (snd (request_of cb))] /\
     device_calls (iteration w) = device_calls w ++ [request_of cb] /\
     state (iteration w) = state w /\
     timeouts (iteration w) = timeouts w) /\
  (inProgress (queue w) = false -> immediateRequests (queue w) = [] ->
   requests (queue w) = [] -> iteration w = w).
Proof.
  destruct_world w. unfold iteration. simpl.
  split; [intros ->; reflexivity|].
  split; [intros -> cb rest ->|split; [intros -> -> cb rest ->|]].
  - destruct cb; simpl; repeat split; try (rewrite <- app_assoc; reflexivity);
      unfold device_calls; simpl; rewrite !omap_app; simpl; rewrite <- app_assoc;
      reflexivity.
  - destruct cb; simpl; repeat split; try (rewrite <- app_assoc; reflexivity);
      unfold device_calls; simpl; rewrite !omap_app; simpl; rewrite <- app_assoc;
      reflexivity.
  - intros -> -> ->. reflexivity.
Qed.

Lemma tick_dispatch_witness :
  let w := set_requests [PollTask] (immediate (SetOnTask false 3) world_on) in
  inflight (iteration w) = [SetOnTask false 3] /\
  requests (queue (iteration w)) = [PollTask] /\
  out (iteration w) =
    out w ++ [Log ImmediateRequestFound;
              Post "/zeroconf/switch" (JObj [("data", JObj [("switch", JStr "off")])])] /\
  device_calls (iteration w) =
    device_calls w ++ [("/zeroconf/switch", JObj [("data", JObj [("switch", JStr "off")])])] /\
  iteration (iteration w) = iteration w.
Proof.
  intros w.
  destruct (tick_dispatch w) as (_ & Himm & _).
  destruct (Himm eq_refl (SetOnTask false 3) [] eq_refl)
    as (_ & Hbusy & Hin & _ & Hreq & Hout & Hdev & _).
  split; [exact Hin|]. split; [exact Hreq|]. split; [exact Hout|]. split; [exact Hdev|].
  apply (proj1 (tick_dispatch (iteration w))). exact Hbusy.
Defined.



(** ** The invariant *)

Lemma Inv_boot (frequency wt : Z) : Inv wt (boot frequency wt).
Proof.
  constructor; simpl; try reflexivity.
  - intros [H|[H|[]]]; discriminate H.
  - apply phase_idle; simpl; try reflexivity. intros t H. discriminate H.
Qed.

Lemma Inv_iteration (wt : Z) (w : World) : Inv wt w -> Inv wt (iteration w).
Proof.
  intros [Hw Hr Hl Hp]. unfold iteration.
  destruct (inProgress (queue w)) eqn:Hb; [constructor; assumption|].
  rewrite Hr.
  destruct (immediateRequests (queue w)) as [|cb rest] eqn:Hi; [constructor; assumption|].
  destruct Hp as [_ Hin Hto Hls|cb' Hb' _ _|t Hb' _ _ _ _]; try congruence.
  destruct_world w. subst.
  destruct cb as [value callback|]; constructor; simpl; try reflexivity.
  all: try (rewrite !in_app_iff; simpl; intros [[H|[H|[]]]|[H|[]]];
            try discriminate H; apply Hl; exact H).
  all: eapply phase_running; reflexivity.
Qed.

Lemma Inv_attempt (wt : Z) (cb : Task) (w : World) : Inv wt w -> Inv wt (attempt cb w).
Proof.
  intros [Hw Hr Hl Hp]. unfold attempt.
  destruct (inProgress (queue w)) eqn:Hb; simpl; [constructor; assumption|].
  destruct Hp as [_ Hin Hto Hls|cb' Hb' _ _|t Hb' _ _ _ _]; try congruence.
  destruct_world w. subst.
  destruct cb as [value callback|]; constructor; simpl; try reflexivity.
  all: try (rewrite !in_app_iff; simpl; intros [H|[H|[]]];
            try discriminate H; apply Hl; exact H).
  all: eapply phase_running; reflexivity.
Qed.

Lemma Inv_with_intervals (wt : Z) (l : list Interval) (w : World) :
  Inv wt w -> Inv wt (with_intervals l w).
Proof.
  intros [Hw Hr Hl Hp]. constructor; try assumption.
  destruct Hp as [? ? ? ?|cb ? ? ?|t ? ? ? ? ?];
    [apply phase_idle|eapply phase_running|eapply phase_cooling]; eassumption.
Qed.

Lemma Inv_step (wt : Z) (w w' : World) (ev : Event) :
  Inv wt w -> step w ev = Some w' -> Inv wt w'.
Proof.
  intros HI Hs. destruct ev as [d|i|i|i r|value callback|callback]; simpl in Hs.
  - destruct (0 <=? d) eqn:Hd; [|discriminate Hs]. injection Hs as <-.
    apply Z.leb_le in Hd. destruct HI as [Hw Hr Hl Hp].
    constructor; try assumption.
    destruct Hp as [? ? ? Hls|cb ? ? ?|t ? ? ? ? ?];
      [apply phase_idle|eapply phase_running|eapply phase_cooling];
      simpl; try eassumption; try lia.
    intros t Ht. specialize (Hls t Ht). lia.
  - destruct (intervals w !! i) as [t|]; [|discriminate Hs].
    destruct (next_due t <=? now w); [|discriminate Hs]. injection Hs as <-.
    destruct (callback_of t); simpl.
    + apply Inv_iteration, Inv_with_intervals, HI.
    + apply Inv_attempt, Inv_with_intervals, HI.
  - destruct (timeouts w !! i) as [due|] eqn:Hto; [|discriminate Hs].
    destruct (due <=? now w) eqn:Hdue; [|discriminate Hs]. injection Hs as <-.
    apply Z.leb_le in Hdue. destruct HI as [Hw Hr Hl Hp].
    constructor; try assumption.
    destruct Hp as [? ? E ?|cb ? ? E|t ? ? Hls E ?]; rewrite E in Hto;
      try discriminate Hto.
    destruct i as [|i]; [|discriminate Hto]. injection Hto as <-.
    apply phase_idle; simpl; try assumption; try reflexivity.
    + rewrite E. reflexivity.
    + intros t' Ht'. rewrite Hls in Ht'. injection Ht' as <-. exact Hdue.
  - destruct (inflight w !! i) as [cb|] eqn:Hin; [|discriminate Hs].
    destruct (resume cb r (with_inflight (delete i (inflight w)) w)) as [w1 outcome] eqn:Hres.
    injection Hs as <-.
    destruct HI as [Hw Hr Hl Hp].
    destruct Hp as [? E ? ?|cb' Hb E Hto|t ? E ? ? ?]; rewrite E in Hin;
      try discriminate Hin.
    destruct i as [|i]; [|discriminate Hin]. injection Hin as <-.
    destruct_world w. subst.
    unfold resume in Hres.
    destruct cb' as [value callback|]; simpl in Hres.
    + destruct r as [body|e]; injection Hres as <- <-; constructor; simpl;
        try reflexivity.
      all: try (rewrite !in_app_iff; simpl; intros [H|[H|[]]];
                try discriminate H; apply Hl; exact H).
      all: eapply phase_cooling; simpl; try reflexivity; lia.
    + destruct (getOn_settled r) as [b|e].
      * destruct (decide (w_st = Some b)); injection Hres as <- <-; constructor; simpl;
          try reflexivity; try assumption.
        all: try (rewrite !in_app_iff; simpl; intros [[H|[H|[]]]|[H|[]]];
                  try discriminate H; apply Hl; exact H).
        all: eapply phase_cooling; simpl; try reflexivity; lia.
      * injection Hres as <- <-; constructor; simpl; try reflexivity.
        -- rewrite !in_app_iff; simpl; intros [H|[H|[]]];
             try discriminate H; apply Hl; exact H.
        -- eapply phase_cooling; simpl; try reflexivity; lia.
  - injection Hs as <-. destruct HI as [Hw Hr Hl Hp]. destruct_world w.
    constructor; simpl; try assumption.
    + rewrite !in_app_iff; simpl; intros [[H|[H|[]]]|[H|[]]];
        try discriminate H; apply Hl; exact H.
    + destruct Hp as [? ? ? ?|cb ? ? ?|t ? ? ? ? ?];
        [apply phase_idle|eapply phase_running|eapply phase_cooling]; eassumption.
  - injection Hs as <-. destruct HI as [Hw Hr Hl Hp]. destruct_world w.
    constructor; simpl; try assumption.
    + rewrite !in_app_iff; simpl; intros [[H|[H|[]]]|[H|[]]];
        try discriminate H; apply Hl; exact H.
    + destruct Hp as [? ? ? ?|cb ? ? ?|t ? ? ? ? ?];
        [apply phase_idle|eapply phase_running|eapply phase_cooling]; eassumption.
Qed.

Lemma Inv_exec (wt : Z) (evs : list Event) (w w' : World) :
  Inv wt w -> exec w evs = Some w' -> Inv wt w'.
Proof.
  revert w. induction evs as [|ev evs IH]; intros w HI He; simpl in He.
  - injection He as <-. exact HI.
  - destruct (step w ev) as [w1|] eqn:Hs; [|discriminate He].
    apply (IH w1); [eapply Inv_step; eassumption|exact He].
Qed.

Lemma Inv_reachable (frequency wt : Z) (evs : list Event) (w : World) :
  exec (boot frequency wt) evs = Some w -> Inv wt w.
Proof. apply Inv_exec, Inv_boot. Qed.

(** ** Mutual exclusion *)

Lemma busy_step_starts_nothing (w w' : World) (ev : Event) :
  inProgress (queue w) = true -> step w ev = Some w' ->
  (length (inflight w') <= length (inflight w))%nat.
Proof.
  intros Hb Hs. destruct ev as [d|i|i|i r|value callback|callback]; simpl in Hs.
  - destruct (0 <=? d); [|discriminate Hs]. injection Hs as <-. simpl. lia.
  - destruct (intervals w !! i) as [t|]; [|discriminate Hs].
    destruct (next_due t <=? now w); [|discriminate Hs]. injection Hs as <-.
    destruct (callback_of t); simpl; unfold iteration, loadState, attempt; simpl;
      rewrite Hb; simpl; lia.
  - destruct (timeouts w !! i) as [due|]; [|discriminate Hs].
    destruct (due <=? now w); [|discriminate Hs]. injection Hs as <-. simpl. lia.
  - destruct (inflight w !! i) as [cb|] eqn:Hin; [|discriminate Hs].
    assert (Hlen : (length (delete i (inflight w)) <= length (inflight w))%nat).
    { rewrite length_delete by (eexists; exact Hin). lia. }
    unfold resume in Hs. destruct cb as [value callback|].
    + destruct r as [body|e]; injection Hs as <-; simpl; exact Hlen.
    + destruct (getOn_settled r) as [b|e]; simpl in Hs.
      * destruct (decide (state w = Some b)); injection Hs as <-; simpl; exact Hlen.
      * injection Hs as <-; simpl; exact Hlen.
  - injection Hs as <-. simpl. lia.
  - injection Hs as <-. simpl. lia.
Qed.

Lemma starts_task_idle (w w' : World) (ev : Event) :
  step w ev = Some w' -> starts_task w w' -> inProgress (queue w) = false.
Proof.
  intros Hs Hst. destruct (inProgress (queue w)) eqn:Hb; [|reflexivity].
  pose proof (busy_step_starts_nothing w w' ev Hb Hs) as H.
  unfold starts_task in Hst. lia.
Qed.

(** C1: on a busy queue a tick returns without dispatching, [attempt]
    does not run its task, and no event whatever starts a task; in every
    state the program can reach, whatever was submitted and in whatever
    order, at most one task is executing, and only while the queue is
    busy. *)
Theorem busy_excludes_dispatch
    (w : World) (cb : Task) (ev : Event) (w' : World)
    (frequency wt : Z) (evs : list Event) (v : World) :
  (inProgress (queue w) = true ->
     iteration w = w /\ attempt cb w = w /\
     (step w ev = Some w' -> ~ starts_task w w')) /\
  (exec (boot frequency wt) evs = Some v ->
     (length (inflight v) <= 1)%nat /\
     (inflight v <> [] -> inProgress (queue v) = true)).
Proof.
  split.
  - intros Hb. unfold iteration, attempt. rewrite Hb. repeat split.
    intros Hs Hst. pose proof (starts_task_idle w w' ev Hs Hst). congruence.
  - intros He. destruct (Inv_reachable _ _ _ _ He) as [_ _ _ Hp].
    destruct Hp as [? E ? ?|cb' ? E ?|t ? E ? ? ?]; rewrite E; simpl;
      split; try lia; try assumption; intros Hne; congruence.
Qed.

Lemma busy_excludes_dispatch_witness :
  let w := run (SetOnTask true 7) world0 in
  (iteration w = w /\ attempt PollTask w = w /\
   ~ starts_task w (with_now (now w + 5) w)) /\
  (length (inflight world_on) <= 1)%nat.
Proof.
  intros w.
  destruct (busy_excludes_dispatch w PollTask (Advance 5) (with_now (now w + 5) w)
              2 100 set_on_events world_on) as [H1 H2].
  split.
  - destruct (H1 eq_refl) as (Ha & Hb & Hc). split; [exact Ha|]. split; [exact Hb|].
    apply Hc. reflexivity.
  - apply H2. reflexivity.
Defined.

(** ** The queued lane *)

(** C9: in every state the program can reach the queued lane [requests]
    is empty, so a tick never takes the queued-lane branch: [iteration]
    agrees with its immediate-lane-only reading and "Queue request found"
    is never logged. *)
Theorem queued_lane_always_empty (frequency wt : Z) (evs : list Event) (w : World) :
  exec (boot frequency wt) evs = Some w ->
  requests (queue w) = [] /\
  iteration w = iteration_immediate_only w /\
  ~ In (Log RequestFound) (out w).
Proof.
  intros He. destruct (Inv_reachable _ _ _ _ He) as [_ Hr Hl _].
  split; [exact Hr|]. split; [|exact Hl].
  unfold iteration, iteration_immediate_only. rewrite Hr. reflexivity.
Qed.

Lemma queued_lane_always_empty_witness :
  requests (queue world_on) = [] /\
  iteration world_on = iteration_immediate_only world_on /\
  ~ In (Log RequestFound) (out world_on).
Proof. apply (queued_lane_always_empty 2 100 set_on_events). reflexivity. Defined.

(** ** Cooldown *)

Lemma delay_covers_wait (wt : Z) : wt <= TIMEOUT_MAX -> wt <= timer_delay (Fin wt).
Proof.
  intros H. destruct (Z_lt_le_dec wt 1) as [Hlt|Hge].
  - pose proof (timer_delay_pos (Fin wt)). lia.
  - rewrite timer_delay_in_range; lia.
Qed.

Lemma settle_effect (wt : Z) (w w' : World) (i : nat) (r : Settled JsVal) :
  Inv wt w -> step w (Settle i r) = Some w' ->
  lastSettled w' = Some (now w) /\ inProgress (queue w') = true /\
  inflight w' = [] /\ timeouts w' = [now w + timer_delay (Fin wt)].
Proof.
  intros [Hw Hr Hl Hp] Hs. simpl in Hs.
  destruct (inflight w !! i) as [cb|] eqn:Hin; [|discriminate Hs].
  destruct Hp as [? E ? ?|cb' Hb E Hto|t ? E ? ? ?]; rewrite E in Hin;
    try discriminate Hin.
  destruct i as [|i]; [|discriminate Hin]. injection Hin as <-.
  destruct_world w. subst. unfold resume in Hs.
  destruct cb' as [value callback|]; simpl in Hs.
  - destruct r as [body|e]; injection Hs as <-; repeat split.
  - destruct (getOn_settled r) as [b|e].
    + destruct (decide (w_st = Some b)); injection Hs as <-; repeat split.
    + injection Hs as <-; repeat split.
Qed.

(** C3: every task's settling, success or failure alike, leaves the queue
    busy with one cooldown timer due [wait] ms later; the queue stays busy
    until that much time has passed, so a task can only start [wait] ms or
    more after the previous one settled; and once the timer is due, firing
    it leaves the queue idle.  ([wait] is within the range of delays Node
    honours.) *)
Theorem cooldown_spacing
    (frequency wt : Z) (evs : list Event) (w : World) (ev : Event) (w' : World) :
  wt <= TIMEOUT_MAX ->
  exec (boot frequency wt) evs = Some w ->
  (forall t, lastSettled w = Some t -> now w < t + wt -> inProgress (queue w) = true) /\
  (forall i r, ev = Settle i r -> step w ev = Some w' ->
     lastSettled w' = Some (now w) /\ inProgress (queue w') = true /\
     exists due, timeouts w' = [due] /\ now w + wt <= due) /\
  (step w ev = Some w' -> starts_task w w' ->
     forall t, lastSettled w = Some t -> t + wt <= now w) /\
  (inProgress (queue w) = true -> inflight w = [] ->
     exists due, timeouts w = [due] /\
       forall d, 0 <= d -> due <= now w + d ->
         exists v, exec w [Advance d; FireTimeout 0] = Some v /\
                   inProgress (queue v) = false /\ inflight v = [] /\ timeouts v = []).
Proof.
  intros Hwt He. pose proof (Inv_reachable _ _ _ _ He) as HI.
  pose proof (delay_covers_wait wt Hwt) as Hd.
  assert (Hbusy : forall t, lastSettled w = Some t -> now w < t + wt ->
                            inProgress (queue w) = true).
  { intros t Ht Hnow. destruct HI as [_ _ _ Hp].
    destruct Hp as [? ? ? Hls|cb ? ? ?|t' ? ? ? ? ?]; try assumption.
    specialize (Hls t Ht). lia. }
  split; [exact Hbusy|]. split; [|split].
  - intros i r -> Hs. destruct (settle_effect wt w w' i r HI Hs) as (H1 & H2 & _ & H4).
    split; [exact H1|]. split; [exact H2|].
    exists (now w + timer_delay (Fin wt)). split; [exact H4|lia].
  - intros Hs Hst t Ht. pose proof (starts_task_idle w w' ev Hs Hst) as Hidle.
    destruct (Z_lt_le_dec (now w) (t + wt)) as [Hlt|Hge]; [|exact Hge].
    rewrite (Hbusy t Ht Hlt) in Hidle. discriminate Hidle.
  - intros Hb Hin. destruct HI as [_ _ _ Hp].
    destruct Hp as [? ? ? ?|cb ? E ?|t ? ? ? Hto ?]; try congruence.
    exists (t + timer_delay (Fin wt)). split; [exact Hto|].
    intros d Hd0 Hdue. simpl.
    apply Z.leb_le in Hd0. rewrite Hd0. simpl. rewrite Hto. simpl.
    apply Z.leb_le in Hdue. rewrite Hdue.
    eexists. split; [reflexivity|]. simpl. repeat split; assumption.
Qed.

Lemma cooldown_spacing_witness :
  let failure := Settle 0 (Rejected (AxiosError "ETIMEDOUT")) in
  (lastSettled world_cooling = Some (now world_running) /\
   inProgress (queue world_cooling) = true /\
   exists due, timeouts world_cooling = [due] /\ now world_running + 100 <= due) /\
  (forall t, lastSettled world_before_poll = Some t -> t + 100 <= now world_before_poll) /\
  (exists due, timeouts world_cooling = [due] /\
     forall d, 0 <= d -> due <= now world_cooling + d ->
       exists v, exec world_cooling [Advance d; FireTimeout 0] = Some v /\
                 inProgress (queue v) = false /\ inflight v = [] /\ timeouts v = []).
Proof.
  intros failure.
  assert (H100 : 100 <= TIMEOUT_MAX) by (unfold TIMEOUT_MAX; lia).
  assert (E1 : exec (boot 2 100) [HomeKitSet true 7; Advance 500; FireInterval 0]
               = Some world_running) by (vm_compute; reflexivity).
  assert (E2 : exec (boot 2 100) (set_on_events ++ [Advance 4400])
               = Some world_before_poll) by (vm_compute; reflexivity).
  assert (E3 : exec (boot 2 100) [HomeKitSet true 7; Advance 500; FireInterval 0; failure]
               = Some world_cooling) by (vm_compute; reflexivity).
  split; [|split].
  - destruct (cooldown_spacing 2 100 _ world_running failure world_cooling H100 E1)
      as (_ & H & _).
    apply (H 0%nat (Rejected (AxiosError "ETIMEDOUT")) eq_refl).
    vm_compute. reflexivity.
  - destruct (cooldown_spacing 2 100 _ world_before_poll (FireInterval 1)
                (loadState (with_intervals
                   (<[1%nat := mkInterval 10000 5000 cb_loadState]>
                      (intervals world_before_poll)) world_before_poll))
                H100 E2) as (_ & _ & H & _).
    apply H; vm_compute; reflexivity.
  - destruct (cooldown_spacing 2 100 _ world_cooling failure world_cooling H100 E3)
      as (_ & _ & _ & H).
    apply H; vm_compute; reflexivity.
Defined.

(** ** The cached state *)

Lemma step_state (w w' : World) (ev : Event) :
  step w ev = Some w' ->
  state w' = state w \/
  (exists i body value callback,
     ev = Settle i (Fulfilled body) /\
     inflight w !! i = Some (SetOnTask value callback) /\ state w' = Some value) \/
  (exists i r b,
     ev = Settle i r /\ inflight w !! i = Some PollTask /\
     getOn_settled r = Fulfilled b /\ state w' = Some b).
Proof.
  intros Hs. destruct ev as [d|i|i|i r|value callback|callback]; simpl in Hs.
  - destruct (0 <=? d); [|discriminate Hs]. injection Hs as <-. left. reflexivity.
  - destruct (intervals w !! i) as [t|]; [|discriminate Hs].
    destruct (next_due t <=? now w); [|discriminate Hs]. injection Hs as <-. left.
    destruct (callback_of t); simpl.
    + unfold iteration. simpl. destruct (inProgress (queue w)); [reflexivity|].
      destruct (immediateRequests (queue w)) as [|cb rest].
      * destruct (requests (queue w)) as [|cb rest]; [reflexivity|].
        destruct cb; reflexivity.
      * destruct cb; reflexivity.
    + unfold loadState, attempt. simpl. destruct (inProgress (queue w)); reflexivity.
  - destruct (timeouts w !! i) as [due|]; [|discriminate Hs].
    destruct (due <=? now w); [|discriminate Hs]. injection Hs as <-. left. reflexivity.
  - destruct (inflight w !! i) as [cb|] eqn:Hin; [|discriminate Hs].
    unfold resume in Hs. destruct cb as [value callback|].
    + destruct r as [body|e]; injection Hs as <-.
      * right. left. exists i, body, value, callback. repeat split. exact Hin.
      * left. reflexivity.
    + destruct (getOn_settled r) as [b|e] eqn:Hr; simpl in Hs.
      * right. right. exists i, r, b.
        destruct (decide (state w = Some b)); injection Hs as <-; repeat split;
          assumption.
      * injection Hs as <-. left. reflexivity.
  - injection Hs as <-. left. reflexivity.
  - injection Hs as <-. left. reflexivity.
Qed.

Lemma exec_without_settle (evs : list Event) (v v' : World) :
  exec v evs = Some v' -> forallb (fun ev => negb (is_settle ev)) evs = true ->
  state v' = state v.
Proof.
  revert v. induction evs as [|ev evs IH]; intros v He Hn; simpl in He, Hn.
  - injection He as <-. reflexivity.
  - destruct (step v ev) as [v1|] eqn:Hs; [|discriminate He].
    apply andb_prop in Hn. destruct Hn as [Hev Hn].
    rewrite (IH v1 He Hn).
    destruct (step_state v v1 ev Hs) as [H|[(i & body & value & callback & -> & _)
                                          |(i & r & b & -> & _)]];
      [exact H|discriminate Hev|discriminate Hev].
Qed.

(** C2: a step of the program leaves the cached state alone unless it is
    the fulfilment of a set request (the cache takes the requested value)
    or a poll whose [getOn] succeeds (the cache takes the value read).  A
    rejected set request leaves the cache as it was and hands the rejection
    to the set callback; a failed poll leaves the cache as it was and is
    only logged.  Nothing that happens while a request is in flight touches
    the cache, so the value a failure leaves is the one from before the
    call. *)
Theorem cache_written_only_on_success
    (w w' : World) (ev : Event) (evs : list Event) (v v' : World) :
  (step w ev = Some w' ->
     (state w' = state w \/
      (exists i body value callback,
         ev = Settle i (Fulfilled body) /\
         inflight w !! i = Some (SetOnTask value callback) /\ state w' = Some value) \/
      (exists i r b,
         ev = Settle i r /\ inflight w !! i = Some PollTask /\
         getOn_settled r = Fulfilled b /\ state w' = Some b)) /\
     (forall i e value callback,
        ev = Settle i (Rejected e) ->
        inflight w !! i = Some (SetOnTask value callback) ->
        state w' = state w /\ out w' = out w ++ [SetCallback callback (Some e)]) /\
     (forall i r e,
        ev = Settle i r -> inflight w !! i = Some PollTask ->
        getOn_settled r = Rejected e ->
        state w' = state w /\ out w' = out w ++ [LogError e])) /\
  (exec v evs = Some v' -> forallb (fun ev => negb (is_settle ev)) evs = true ->
     state v' = state v).
Proof.
  split; [|apply exec_without_settle].
  intros Hs. split; [exact (step_state w w' ev Hs)|]. split.
  - intros i e value callback -> Hin. simpl in Hs. rewrite Hin in Hs. simpl in Hs.
    injection Hs as <-. split; reflexivity.
  - intros i r e -> Hin Hr. simpl in Hs. rewrite Hin in Hs. unfold resume in Hs.
    rewrite Hr in Hs. injection Hs as <-. split; reflexivity.
Qed.

Lemma cache_written_only_on_success_witness :
  let w := run (SetOnTask false 9) world_on in
  let ev := Settle 0 (Rejected (AxiosError "ECONNREFUSED")) in
  let w' := default w (step w ev) in
  state w' = Some true /\
  out w' = out w ++ [SetCallback 9 (Some (AxiosError "ECONNREFUSED"))].
Proof.
  intros w ev w'.
  destruct (cache_written_only_on_success w w' ev [] w w) as [H _].
  destruct (H eq_refl) as (_ & Hset & _).
  exact (Hset 0%nat (AxiosError "ECONNREFUSED") false 9%nat eq_refl eq_refl).
Defined.

(** ** The tick interval *)

Lemma timeout_of_pos (frequency : Z) :
  0 < frequency ->
  exists t, timeout_of frequency = Fin t /\
            (t - 1) * frequency < 1000 <= t * frequency.
Proof.
  intros Hf. unfold timeout_of.
  destruct (frequency =? 0) eqn:E; [apply Z.eqb_eq in E; lia|].
  eexists. split; [reflexivity|].
  set (x := (inject_Z 1000 / inject_Z frequency)%Q).
  pose proof (Qle_ceiling x) as Hle. pose proof (Qceiling_lt x) as Hlt.
  destruct frequency as [|p|p]; try lia.
  unfold x, Qle, Qlt, Qdiv, Qinv, Qmult, inject_Z in *. simpl in *.
  split; lia.
Qed.

(** C10: the timeout the queue computes is the ceiling of 1000 / frequency
    (and [Infinity] for frequency 0); for a positive frequency it is the
    least number of milliseconds [t] with [t * frequency >= 1000] and is the
    period of the tick interval.  The accessory builds its one queue with
    frequency 2 and wait 100, so the tick period is 500 ms and the cooldown
    100 ms. *)
Theorem tick_interval (frequency wt : Z) :
  match timeout_of frequency with
  | Fin t =>
      frequency <> 0 /\
      (inject_Z (t - 1) < inject_Z 1000 / inject_Z frequency)%Q /\
      (inject_Z 1000 / inject_Z frequency <= inject_Z t)%Q
  | Infinity => frequency = 0
  end /\
  (0 < frequency ->
     exists t, timeout_of frequency = Fin t /\
       (t - 1) * frequency < 1000 <= t * frequency /\
       intervals (Queue_new frequency wt) = [mkInterval t t cb_iteration]) /\
  wait (queue (Queue_new frequency wt)) = wt /\
  world0 = trackState (Queue_new 2 100) /\
  timeout_of 2 = Fin 500 /\
  intervals world0 !! 0%nat = Some (mkInterval 500 500 cb_iteration) /\
  wait (queue world0) = 100.
Proof.
  split; [|split; [|repeat split]].
  - unfold timeout_of. destruct (frequency =? 0) eqn:E.
    + apply Z.eqb_eq. exact E.
    + apply Z.eqb_neq in E. split; [exact E|]. split.
      * apply Qceiling_lt.
      * apply Qle_ceiling.
  - intros Hf. destruct (timeout_of_pos frequency Hf) as (t & Ht & Hlo & Hhi).
    exists t. split; [exact Ht|]. split; [split; assumption|].
    unfold Queue_new. simpl. rewrite Ht.
    rewrite timer_delay_in_range; [reflexivity|]. unfold TIMEOUT_MAX. nia.
Qed.

Lemma tick_interval_witness :
  exists t, timeout_of 2 = Fin t /\
    (t - 1) * 2 < 1000 <= t * 2 /\
    intervals (Queue_new 2 100) = [mkInterval t t cb_iteration].
Proof.
  apply (proj1 (proj2 (tick_interval 2 100))). reflexivity.
Defined.

(** * Further properties of the queue and the accessory *)

(** ** What a step sends to the device *)

Lemma device_calls_emit (o : Obs) (w : World) :
  device_calls (emit o w) =
    device_calls w ++ match o with Post path body => [(path, body)] | _ => [] end.
Proof.
  unfold device_calls. simpl. rewrite omap_app. destruct o; reflexivity.
Qed.

Lemma run_starts (cb : Task) (w : World) :
  starts_task w (run cb w) /\
  exists path body, device_calls (run cb w) = device_calls w ++ [(path, body)].
Proof.
  destruct (run_effect cb w) as (_ & Hi & _ & _ & _ & _ & path & body & _ & Hd).
  split.
  - unfold starts_task. rewrite Hi, length_app. simpl. lia.
  - exists path, body. exact Hd.
Qed.

Lemma step_device_calls (w w' : World) (ev : Event) :
  step w ev = Some w' ->
  device_calls w' = device_calls w \/
  (starts_task w w' /\
   exists path body, device_calls w' = device_calls w ++ [(path, body)]).
Proof.
  intros Hs. destruct ev as [d|i|i|i r|value callback|callback]; simpl in Hs.
  - destruct (0 <=? d); [|discriminate Hs]. injection Hs as <-. left. reflexivity.
  - destruct (intervals w !! i) as [t|]; [|discriminate Hs].
    destruct (next_due t <=? now w); [|discriminate Hs]. injection Hs as <-.
    set (w1 := with_intervals _ w).
    assert (Hw1 : device_calls w1 = device_calls w /\ inflight w1 = inflight w)
      by (split; reflexivity).
    destruct Hw1 as [Hd1 Hi1]. unfold starts_task. rewrite <- Hd1, <- Hi1.
    destruct (callback_of t); simpl.
    + unfold iteration. destruct (inProgress (queue w1)); [left; reflexivity|].
      destruct (immediateRequests (queue w1)) as [|cb rest].
      * destruct (requests (queue w1)) as [|cb rest]; [left; reflexivity|].
        right. destruct cb; simpl; (split; [rewrite length_app; simpl; lia|]);
          eexists; eexists; unfold device_calls; simpl; rewrite !omap_app;
          simpl; rewrite <- app_assoc; reflexivity.
      * right. destruct cb; simpl; (split; [rewrite length_app; simpl; lia|]);
          eexists; eexists; unfold device_calls; simpl; rewrite !omap_app;
          simpl; rewrite <- app_assoc; reflexivity.
    + unfold loadState, attempt. destruct (inProgress (queue w1)); simpl;
        [left; reflexivity|].
      right. split; [rewrite length_app; simpl; lia|].
      eexists; eexists; unfold device_calls; simpl; rewrite !omap_app; reflexivity.
  - destruct (timeouts w !! i) as [due|]; [|discriminate Hs].
    destruct (due <=? now w); [|discriminate Hs]. injection Hs as <-. left. reflexivity.
  - destruct (inflight w !! i) as [cb|] eqn:Hin; [|discriminate Hs].
    left. unfold resume in Hs. destruct cb as [value callback|].
    + destruct r as [body|e]; injection Hs as <-; unfold device_calls; simpl;
        rewrite omap_app; simpl; apply app_nil_r.
    + destruct (getOn_settled r) as [b|e]; simpl in Hs.
      * destruct (decide (state w = Some b)); injection Hs as <-;
          unfold device_calls; simpl; rewrite ?omap_app; simpl;
          rewrite ?app_nil_r; reflexivity.
      * injection Hs as <-; unfold device_calls; simpl; rewrite omap_app; simpl;
          apply app_nil_r.
  - injection Hs as <-. left. unfold device_calls. simpl. rewrite !omap_app. simpl.
    rewrite !app_nil_r. reflexivity.
  - injection Hs as <-. left. unfold device_calls. simpl. rewrite !omap_app. simpl.
    rewrite !app_nil_r. reflexivity.
Qed.

(** X2: the busy flag is exact: it is set precisely while a request is in
    flight or a cooldown timer is pending, and these never overlap or pile
    up.  The flag can therefore not stick without something left to clear
    it. *)
Theorem busy_flag_exact (frequency wt : Z) (evs : list Event) (w : World) :
  exec (boot frequency wt) evs = Some w ->
  (inProgress (queue w) = true <-> inflight w <> [] \/ timeouts w <> []) /\
  (length (inflight w) + length (timeouts w) <= 1)%nat.
Proof.
  intros He. destruct (Inv_reachable _ _ _ _ He) as [_ _ _ Hp].
  destruct Hp as [Hb Hi Ht _|cb Hb Hi Ht|t Hb Hi _ Ht _]; rewrite Hb, Hi, Ht; simpl;
    (split; [split|lia]).
  - discriminate.
  - intros [H|H]; contradiction.
  - intros _. left. discriminate.
  - reflexivity.
  - intros _. right. discriminate.
  - reflexivity.
Qed.

Lemma busy_flag_exact_witness :
  (inProgress (queue world_cooling) = true <->
     inflight world_cooling <> [] \/ timeouts world_cooling <> []) /\
  (length (inflight world_cooling) + length (timeouts world_cooling) <= 1)%nat.
Proof.
  apply (busy_flag_exact 2 100
           [HomeKitSet true 7; Advance 500; FireInterval 0;
            Settle 0 (Rejected (AxiosError "ETIMEDOUT"))]).
  vm_compute. reflexivity.
Defined.

(** X3: the device is addressed only by a task that starts: a step sends at
    most one POST, and when it sends one no other request is outstanding
    and the last response, if there was one, came at least [wait] ms ago. *)
Theorem device_call_rate_limit
    (frequency wt : Z) (evs : list Event) (w : World) (ev : Event) (w' : World) :
  wt <= TIMEOUT_MAX ->
  exec (boot frequency wt) evs = Some w ->
  step w ev = Some w' ->
  device_calls w' = device_calls w \/
  ((exists path body, device_calls w' = device_calls w ++ [(path, body)]) /\
   inflight w = [] /\ timeouts w = [] /\
   forall t, lastSettled w = Some t -> t + wt <= now w).
Proof.
  intros Hwt He Hs.
  destruct (step_device_calls w w' ev Hs) as [H|[Hst Hcall]]; [left; exact H|].
  right. split; [exact Hcall|].
  pose proof (starts_task_idle w w' ev Hs Hst) as Hidle.
  destruct (Inv_reachable _ _ _ _ He) as [_ _ _ Hp].
  destruct Hp as [_ Hi Ht Hls|cb Hb _ _|t Hb _ _ _ _]; try congruence.
  split; [exact Hi|]. split; [exact Ht|].
  intros t Hl. specialize (Hls t Hl).
  pose proof (delay_covers_wait wt Hwt). lia.
Qed.

Lemma device_call_rate_limit_witness :
  let w' := loadState (with_intervals
                         (<[1%nat := mkInterval 10000 5000 cb_loadState]>
                            (intervals world_before_poll)) world_before_poll) in
  device_calls w' = device_calls world_before_poll \/
  ((exists path body,
      device_calls w' = device_calls world_before_poll ++ [(path, body)]) /\
   inflight world_before_poll = [] /\ timeouts world_before_poll = [] /\
   forall t, lastSettled world_before_poll = Some t -> t + 100 <= now world_before_poll).
Proof.
  intros w'.
  apply (device_call_rate_limit 2 100 (set_on_events ++ [Advance 4400])
           world_before_poll (FireInterval 1) w').
  - unfold TIMEOUT_MAX. lia.
  - vm_compute. reflexivity.
  - vm_compute. reflexivity.
Defined.

(** ** A request that does not settle *)

Lemma running_step (wt : Z) (w w' : World) (ev : Event) (cb : Task) :
  Inv wt w -> inflight w = [cb] -> step w ev = Some w' -> is_settle ev = false ->
  inflight w' = [cb] /\ inProgress (queue w') = true /\
  device_calls w' = device_calls w /\ state w' = state w /\
  immediateRequests (queue w') = immediateRequests (queue w) ++ submitted_tasks [ev].
Proof.
  intros [_ _ _ Hp] Hin Hs Hev.
  destruct Hp as [_ Hi _ _|cb' Hb _ Ht|t _ Hi _ _ _]; try congruence.
  destruct ev as [d|i|i|i r|value callback|callback]; simpl in Hs; try discriminate Hev.
  - destruct (0 <=? d); [|discriminate Hs]. injection Hs as <-. simpl.
    rewrite app_nil_r. repeat split; assumption.
  - destruct (intervals w !! i) as [t|]; [|discriminate Hs].
    destruct (next_due t <=? now w); [|discriminate Hs]. injection Hs as <-.
    destruct (callback_of t); unfold fire, iteration, loadState, attempt; simpl;
      rewrite Hb; simpl; rewrite app_nil_r; repeat split; assumption.
  - rewrite Ht in Hs. discriminate Hs.
  - injection Hs as <-. simpl. repeat split; try assumption.
    unfold device_calls. simpl. rewrite !omap_app. simpl. rewrite !app_nil_r. reflexivity.
  - injection Hs as <-. simpl. rewrite app_nil_r. repeat split; try assumption.
    unfold device_calls. simpl. rewrite !omap_app. simpl. rewrite !app_nil_r. reflexivity.
Qed.

(** X4: no timeout guards the device call.  While the request in flight has
    not settled the queue stays busy whatever else happens: no further
    request is sent, the cache does not move, and the set requests that
    arrive pile up in the immediate lane in their order of arrival. *)
Theorem stalled_request_holds_queue
    (frequency wt : Z) (evs : list Event) (w : World) (evs' : list Event) (w' : World) :
  exec (boot frequency wt) evs = Some w ->
  inflight w <> [] ->
  exec w evs' = Some w' ->
  no_settle evs' = true ->
  inProgress (queue w') = true /\ inflight w' = inflight w /\
  device_calls w' = device_calls w /\ state w' = state w /\
  immediateRequests (queue w') = immediateRequests (queue w) ++ submitted_tasks evs'.
Proof.
  intros He Hne He' Hns. pose proof (Inv_reachable _ _ _ _ He) as HI. clear He.
  assert (Hcb : exists cb, inflight w = [cb]).
  { destruct HI as [_ _ _ Hp]. destruct Hp as [_ Hi _ _|cb _ Hi _|t _ Hi _ _ _];
      try contradiction. exists cb. exact Hi. }
  destruct Hcb as [cb Hin]. clear Hne.
  assert (Hb : inProgress (queue w) = true).
  { destruct HI as [_ _ _ Hp]. destruct Hp as [_ Hi _ _|cb' Hb _ _|t _ Hi _ _ _];
      congruence. }
  revert w HI Hin Hb He'. induction evs' as [|ev evs' IH]; intros w HI Hin Hb He'.
  - simpl in He'. injection He' as <-. simpl. rewrite app_nil_r. repeat split. exact Hb.
  - simpl in He', Hns. apply andb_prop in Hns. destruct Hns as [Hev Hns].
    apply negb_true_iff in Hev.
    destruct (step w ev) as [w1|] eqn:Hs; [|discriminate He'].
    destruct (running_step wt w w1 ev cb HI Hin Hs Hev) as (Hi1 & Hb1 & Hd1 & Hs1 & Hl1).
    destruct (IH Hns w1 (Inv_step wt w w1 ev HI Hs) Hi1 Hb1 He')
      as (Hb2 & Hi2 & Hd2 & Hs2 & Hl2).
    rewrite Hb2, Hi2, Hd2, Hs2, Hl2, Hi1, Hd1, Hs1, Hl1, Hin.
    repeat split. rewrite <- app_assoc. f_equal.
    change (ev :: evs') with ([ev] ++ evs'). unfold submitted_tasks.
    rewrite omap_app. reflexivity.
Qed.

Lemma stalled_request_holds_queue_witness :
  let evs' := [Advance 60000; FireInterval 1; HomeKitSet false 8; FireInterval 0;
               HomeKitSet true 9; HomeKitGet 10] in
  let w' := default world_running (exec world_running evs') in
  inProgress (queue w') = true /\ inflight w' = inflight world_running /\
  device_calls w' = device_calls world_running /\ state w' = state world_running /\
  immediateRequests (queue w') =
    immediateRequests (queue world_running) ++ submitted_tasks evs'.
Proof.
  intros evs' w'.
  apply (stalled_request_holds_queue 2 100
           [HomeKitSet true 7; Advance 500; FireInterval 0] world_running evs' w').
  - vm_compute. reflexivity.
  - discriminate.
  - vm_compute. reflexivity.
  - reflexivity.
Defined.

(** ** Order of the set callbacks *)

Lemma answered_emit (o : Obs) (w : World) :
  answered (emit o w) =
    answered w ++ match o with SetCallback callback _ => [callback] | _ => [] end.
Proof. unfold answered. simpl. rewrite omap_app. destruct o; reflexivity. Qed.

Lemma callback_order_step (wt : Z) (w w' : World) (ev : Event) :
  Inv wt w -> lane_holds_sets w -> step w ev = Some w' ->
  callback_order w' = callback_order w ++ submitted [ev] /\ lane_holds_sets w'.
Proof.
  intros [_ Hr _ Hp] Hl Hs. unfold callback_order, lane_holds_sets in *.
  destruct ev as [d|i|i|i r|value callback|callback]; simpl in Hs.
  - destruct (0 <=? d); [|discriminate Hs]. injection Hs as <-. simpl.
    rewrite app_nil_r. split; [reflexivity|exact Hl].
  - destruct (intervals w !! i) as [t|]; [|discriminate Hs].
    destruct (next_due t <=? now w); [|discriminate Hs]. injection Hs as <-.
    assert (Hidle : inProgress (queue w) = false -> inflight w = []).
    { intros Hb. destruct Hp as [_ Hi _ _|cb Hb' _ _|t' Hb' _ _ _ _]; congruence. }
    clear Hp. destruct_world w. subst. rewrite app_nil_r.
    destruct (callback_of t); unfold fire, iteration, loadState, attempt; simpl.
    + destruct w_busy; [split; [reflexivity|exact Hl]|].
      rewrite (Hidle eq_refl).
      destruct w_iq as [|cb rest]; [split; [reflexivity|exact Hl]|].
      inversion Hl as [|? ? Hcb Hrest]; subst.
      destruct cb as [value callback|]; [|contradiction]. simpl.
      unfold answered. simpl. rewrite !omap_app. simpl.
      rewrite !app_nil_r. split; [reflexivity|exact Hrest].
    + destruct w_busy; simpl; [split; [reflexivity|exact Hl]|].
      rewrite (Hidle eq_refl). simpl. unfold answered. simpl. rewrite !omap_app. simpl.
      rewrite !app_nil_r. split; [reflexivity|exact Hl].
  - destruct (timeouts w !! i) as [due|]; [|discriminate Hs].
    destruct (due <=? now w); [|discriminate Hs]. injection Hs as <-. simpl.
    rewrite app_nil_r. split; [reflexivity|exact Hl].
  - destruct (inflight w !! i) as [cb|] eqn:Hin; [|discriminate Hs].
    destruct Hp as [_ Hi _ _|cb' _ Hi _|t' _ Hi _ _ _]; rewrite Hi in Hin;
      try discriminate Hin.
    destruct i as [|i]; [|discriminate Hin]. injection Hin as <-.
    rewrite Hi in *. unfold resume in Hs. simpl. rewrite app_nil_r.
    destruct cb' as [value callback|].
    + destruct r as [body|e]; injection Hs as <-; simpl; unfold answered; simpl;
        rewrite !omap_app; simpl; rewrite <- !app_assoc;
        (split; [reflexivity|exact Hl]).
    + destruct (getOn_settled r) as [b|e]; simpl in Hs.
      * destruct (decide (state w = Some b)); injection Hs as <-; simpl;
          unfold answered; simpl; rewrite ?omap_app; simpl; rewrite ?app_nil_r;
          (split; [reflexivity|exact Hl]).
      * injection Hs as <-; simpl; unfold answered; simpl; rewrite ?omap_app; simpl;
          rewrite ?app_nil_r; (split; [reflexivity|exact Hl]).
  - injection Hs as <-. simpl. unfold answered. simpl. rewrite !omap_app. simpl.
    rewrite !app_nil_r, <- !app_assoc. split; [reflexivity|].
    apply Forall_app. split; [exact Hl|]. constructor; [discriminate|constructor].
  - injection Hs as <-. simpl. unfold answered. simpl. rewrite !omap_app. simpl.
    rewrite !app_nil_r. split; [reflexivity|exact Hl].
Qed.

(** X1: set requests are served first in, first out, none lost and none
    served twice: at any moment the callbacks already called, then the one
    whose request is in flight, then those waiting in the immediate lane
    are exactly the callbacks HomeKit handed over, in the order it did.
    Nothing but set closures ever waits in the lane. *)
Theorem set_callbacks_fifo (frequency wt : Z) (evs : list Event) (w : World) :
  exec (boot frequency wt) evs = Some w ->
  callback_order w = submitted evs /\ lane_holds_sets w.
Proof.
  intros He.
  assert (Hgen : forall evs w0 w1, Inv wt w0 -> lane_holds_sets w0 ->
            exec w0 evs = Some w1 ->
            callback_order w1 = callback_order w0 ++ submitted evs /\
            lane_holds_sets w1).
  { clear. induction evs as [|ev evs IH]; intros w0 w1 HI Hl He; simpl in He.
    - injection He as <-. rewrite app_nil_r. split; [reflexivity|exact Hl].
    - destruct (step w0 ev) as [w2|] eqn:Hs; [|discriminate He].
      destruct (callback_order_step wt w0 w2 ev HI Hl Hs) as [Ho Hl2].
      destruct (IH w2 w1 (Inv_step wt w0 w2 ev HI Hs) Hl2 He) as [Ho1 Hl1].
      split; [|exact Hl1]. rewrite Ho1, Ho, <- app_assoc. f_equal.
      change (ev :: evs) with ([ev] ++ evs). unfold submitted.
      rewrite omap_app. reflexivity. }
  destruct (Hgen evs (boot frequency wt) w (Inv_boot frequency wt)) as [Ho Hl].
  - constructor.
  - exact He.
  - split; [exact Ho|exact Hl].
Qed.

Lemma set_callbacks_fifo_witness :
  let evs := [HomeKitSet true 7; HomeKitSet false 8; Advance 500; FireInterval 0;
              HomeKitSet true 9; Settle 0 (Fulfilled JNull)] in
  let w := default world0 (exec world0 evs) in
  callback_order w = [7; 8; 9]%nat /\ lane_holds_sets w.
Proof.
  intros evs w. apply (set_callbacks_fifo 2 100 evs w). vm_compute. reflexivity.
Defined.

(** ** The get handler and the cache *)

Lemma step_notifications (w w' : World) (ev : Event) :
  step w ev = Some w' -> is_settle ev = false -> notifications w' = notifications w.
Proof.
  intros Hs Hev.
  destruct ev as [d|i|i|i r|value callback|callback]; simpl in Hs; try discriminate Hev.
  - destruct (0 <=? d); [|discriminate Hs]. injection Hs as <-. reflexivity.
  - destruct (intervals w !! i) as [t|]; [|discriminate Hs].
    destruct (next_due t <=? now w); [|discriminate Hs]. injection Hs as <-.
    destruct_world w.
    destruct (callback_of t); unfold fire, iteration, loadState, attempt; simpl.
    + destruct w_busy; [reflexivity|].
      destruct w_iq as [|cb rest].
      * destruct w_rq as [|cb rest]; [reflexivity|].
        destruct cb; unfold notifications; simpl; rewrite !omap_app; simpl;
          rewrite !app_nil_r; reflexivity.
      * destruct cb; unfold notifications; simpl; rewrite !omap_app; simpl;
          rewrite !app_nil_r; reflexivity.
    + destruct w_busy; simpl; [reflexivity|].
      unfold notifications; simpl; rewrite !omap_app; simpl; rewrite !app_nil_r;
        reflexivity.
  - destruct (timeouts w !! i) as [due|]; [|discriminate Hs].
    destruct (due <=? now w); [|discriminate Hs]. injection Hs as <-. reflexivity.
  - injection Hs as <-. unfold notifications. simpl. rewrite !omap_app. simpl.
    rewrite !app_nil_r. reflexivity.
  - injection Hs as <-. unfold notifications. simpl. rewrite !omap_app. simpl.
    rewrite !app_nil_r. reflexivity.
Qed.

Lemma exec_notifications (evs : list Event) (v v' : World) :
  exec v evs = Some v' -> no_settle evs = true -> notifications v' = notifications v.
Proof.
  revert v. induction evs as [|ev evs IH]; intros v He Hn; simpl in He, Hn.
  - injection He as <-. reflexivity.
  - destruct (step v ev) as [v1|] eqn:Hs; [|discriminate He].
    apply andb_prop in Hn. destruct Hn as [Hev Hn]. apply negb_true_iff in Hev.
    rewrite (IH v1 He Hn). exact (step_notifications v v1 ev Hs Hev).
Qed.

Lemma get_handler_effect (callback : nat) (w : World) :
  out (getOnCharacteristicHandler callback w) =
    out w ++ [Log HandlingGet; GetCallback callback (state w)] /\
  device_calls (getOnCharacteristicHandler callback w) = device_calls w /\
  queue (getOnCharacteristicHandler callback w) = queue w /\
  inflight (getOnCharacteristicHandler callback w) = inflight w.
Proof.
  repeat split.
  - simpl. rewrite <- app_assoc. reflexivity.
  - unfold device_calls. simpl. rewrite !omap_app. simpl. rewrite !app_nil_r.
    reflexivity.
Qed.

(** X5: until the first device request has settled the cache is undefined: a
    get from HomeKit is answered at once with [callback(null, undefined)],
    without a device call, however many sets, ticks and polls came
    before. *)
Theorem get_before_first_response
    (frequency wt : Z) (evs : list Event) (w : World) (callback : nat) (w' : World) :
  exec (boot frequency wt) evs = Some w ->
  no_settle evs = true ->
  step w (HomeKitGet callback) = Some w' ->
  out w' = out w ++ [Log HandlingGet; GetCallback callback None] /\
  device_calls w' = device_calls w /\ state w' = None.
Proof.
  intros He Hn Hs. simpl in Hs. injection Hs as <-.
  pose proof (exec_without_settle evs _ _ He Hn) as Hst. simpl in Hst.
  destruct (get_handler_effect callback w) as (Ho & Hd & _ & _).
  rewrite Ho, Hd, Hst. repeat split. simpl. exact Hst.
Qed.

Lemma get_before_first_response_witness :
  out (getOnCharacteristicHandler 4 world_running) =
    out world_running ++ [Log HandlingGet; GetCallback 4 None] /\
  device_calls (getOnCharacteristicHandler 4 world_running) = device_calls world_running /\
  state (getOnCharacteristicHandler 4 world_running) = None.
Proof.
  apply (get_before_first_response 2 100
           [HomeKitSet true 7; Advance 500; FireInterval 0] world_running 4%nat).
  - vm_compute. reflexivity.
  - reflexivity.
  - reflexivity.
Defined.

(** X6: read your writes: once the device has accepted a set of [value], every
    get is answered with [value], without a device call, until the next
    request settles.  (Before that the set only waits in the lane and a get
    still sees the old cache.) *)
Theorem get_after_set
    (w : World) (i : nat) (value : bool) (callback : nat) (body : JsVal)
    (w1 : World) (evs : list Event) (w2 : World) (getter : nat) (w3 : World) :
  inflight w !! i = Some (SetOnTask value callback) ->
  step w (Settle i (Fulfilled body)) = Some w1 ->
  exec w1 evs = Some w2 ->
  no_settle evs = true ->
  step w2 (HomeKitGet getter) = Some w3 ->
  out w3 = out w2 ++ [Log HandlingGet; GetCallback getter (Some value)] /\
  device_calls w3 = device_calls w2.
Proof.
  intros Hi Hs He Hn Hg.
  assert (H1 : state w1 = Some value).
  { simpl in Hs. rewrite Hi in Hs. simpl in Hs. injection Hs as <-. reflexivity. }
  pose proof (exec_without_settle evs _ _ He Hn) as H2.
  simpl in Hg. injection Hg as <-.
  destruct (get_handler_effect getter w2) as (Ho & Hd & _ & _).
  rewrite Ho, Hd, H2, H1. split; reflexivity.
Qed.

Lemma get_after_set_witness :
  let w1 := default world_running
              (step world_running (Settle 0 (Fulfilled (JObj [("error", JNum 0)])))) in
  let w2 := default w1 (exec w1 [Advance 500; HomeKitSet false 8; FireInterval 0]) in
  let w3 := getOnCharacteristicHandler 5 w2 in
  out w3 = out w2 ++ [Log HandlingGet; GetCallback 5 (Some true)] /\
  device_calls w3 = device_calls w2.
Proof.
  intros w1 w2 w3.
  apply (get_after_set world_running 0 true 7 (JObj [("error", JNum 0)]) w1
           [Advance 500; HomeKitSet false 8; FireInterval 0] w2 5 w3).
  - reflexivity.
  - vm_compute. reflexivity.
  - vm_compute. reflexivity.
  - reflexivity.
  - reflexivity.
Defined.

(** X7: the accessory's own set is not reported back as an external change:
    after the device accepted a set of [value], the next poll raises no
    notification when it reads [value], and exactly one, carrying the value
    read, when it reads the opposite. *)
Theorem poll_after_set
    (w : World) (i : nat) (value : bool) (callback : nat) (body : JsVal)
    (w1 : World) (evs : list Event) (w2 : World)
    (j : nat) (r : Settled JsVal) (b : bool) (w3 : World) :
  inflight w !! i = Some (SetOnTask value callback) ->
  step w (Settle i (Fulfilled body)) = Some w1 ->
  exec w1 evs = Some w2 ->
  no_settle evs = true ->
  inflight w2 !! j = Some PollTask ->
  getOn_settled r = Fulfilled b ->
  step w2 (Settle j r) = Some w3 ->
  notifications w3 = notifications w ++ (if decide (b = value) then [] else [b]) /\
  state w3 = Some b.
Proof.
  intros Hi Hs He Hn Hj Hr Hp.
  assert (H1 : state w1 = Some value /\ notifications w1 = notifications w).
  { simpl in Hs. rewrite Hi in Hs. simpl in Hs. injection Hs as <-. split; [reflexivity|].
    unfold notifications. simpl. rewrite omap_app. simpl. apply app_nil_r. }
  destruct H1 as [H1 N1].
  pose proof (exec_without_settle evs _ _ He Hn) as H2.
  pose proof (exec_notifications evs _ _ He Hn) as N2.
  destruct (poll_settle w2 j r b Hj Hr) as (w3' & Hs3 & Heq & Hne).
  rewrite Hs3 in Hp. injection Hp as <-.
  rewrite <- N1, <- N2.
  destruct (decide (b = value)) as [->|Hbv].
  - destruct Heq as [Hst Ho]; [congruence|]. split; [|congruence].
    unfold notifications. rewrite Ho. symmetry. apply app_nil_r.
  - destruct Hne as [Hst Ho]; [congruence|]. split; [|exact Hst].
    unfold notifications. rewrite Ho, omap_app. reflexivity.
Qed.

Lemma poll_after_set_witness :
  let w1 := default world_running
              (step world_running (Settle 0 (Fulfilled (JObj [("error", JNum 0)])))) in
  let evs := [Advance 100; FireTimeout 0; Advance 4400; FireInterval 1] in
  let w2 := default w1 (exec w1 evs) in
  let w3 := default w2 (step w2 (Settle 0 (Fulfilled (info_body "on")))) in
  notifications w3 = notifications world_running ++ [] /\ state w3 = Some true.
Proof.
  intros w1 evs w2 w3.
  apply (poll_after_set world_running 0 true 7 (JObj [("error", JNum 0)]) w1
           evs w2 0 (Fulfilled (info_body "on")) true w3).
  - reflexivity.
  - vm_compute. reflexivity.
  - vm_compute. reflexivity.
  - reflexivity.
  - vm_compute. reflexivity.
  - reflexivity.
  - vm_compute. reflexivity.
Defined.

(** ** Sets, polls and the lane *)

(** X8: the set handler itself never talks to the device and never calls
    back: it only appends its closure to the immediate lane, even when the
    queue is idle.  On an idle queue with an empty lane it is the next tick
    that sends the POST, to /zeroconf/switch with switch "on" for true and
    "off" for false. *)
Theorem set_waits_for_tick (w : World) (value : bool) (callback : nat) (w1 : World) :
  step w (HomeKitSet value callback) = Some w1 ->
  (device_calls w1 = device_calls w /\ answered w1 = answered w /\
   inflight w1 = inflight w /\ state w1 = state w /\
   inProgress (queue w1) = inProgress (queue w) /\
   immediateRequests (queue w1) =
     immediateRequests (queue w) ++ [SetOnTask value callback]) /\
  (inProgress (queue w) = false -> immediateRequests (queue w) = [] ->
   device_calls (iteration w1) =
     device_calls w ++ [("/zeroconf/switch", switch_body value)] /\
   inflight (iteration w1) = inflight w ++ [SetOnTask value callback] /\
   immediateRequests (queue (iteration w1)) = []).
Proof.
  intros Hs. simpl in Hs. injection Hs as <-. destruct_world w. split.
  - repeat split.
    + unfold device_calls. simpl. rewrite !omap_app. simpl. rewrite !app_nil_r.
      reflexivity.
    + unfold answered. simpl. rewrite !omap_app. simpl. rewrite !app_nil_r.
      reflexivity.
  - intros -> ->. unfold iteration. simpl. repeat split.
    unfold device_calls, switch_body. simpl. rewrite !omap_app. simpl.
    rewrite !app_nil_r. reflexivity.
Qed.

Lemma set_waits_for_tick_witness :
  let w1 := setOnCharacteristicHandler false 3 world_on in
  (device_calls w1 = device_calls world_on /\ answered w1 = answered world_on /\
   inflight w1 = inflight world_on /\ state w1 = state world_on /\
   inProgress (queue w1) = inProgress (queue world_on) /\
   immediateRequests (queue w1) =
     immediateRequests (queue world_on) ++ [SetOnTask false 3]) /\
  (device_calls (iteration w1) =
     device_calls world_on ++ [("/zeroconf/switch", switch_body false)] /\
   inflight (iteration w1) = inflight world_on ++ [SetOnTask false 3] /\
   immediateRequests (queue (iteration w1)) = []).
Proof.
  intros w1.
  destruct (set_waits_for_tick world_on false 3 w1 eq_refl) as [H1 H2].
  split; [exact H1|]. apply H2; reflexivity.
Defined.

(** X9: [attempt] does not look at the lanes: a poll that fires on an idle
    queue runs even when a set is waiting in the immediate lane.  The set
    stays where it is and the next tick, finding the queue busy, does not
    dispatch it. *)
Theorem poll_overtakes_waiting_set (w : World) (cb : Task) (rest : list Task) :
  inProgress (queue w) = false ->
  immediateRequests (queue w) = cb :: rest ->
  inflight (loadState w) = inflight w ++ [PollTask] /\
  immediateRequests (queue (loadState w)) = cb :: rest /\
  device_calls (loadState w) =
    device_calls w ++ [("/zeroconf/info", JObj [("data", JObj [])])] /\
  iteration (loadState w) = loadState w.
Proof.
  intros Hb Hl. destruct_world w. subst. unfold loadState, attempt. simpl.
  repeat split. unfold device_calls. simpl. rewrite omap_app. reflexivity.
Qed.

Lemma poll_overtakes_waiting_set_witness :
  let w := setOnCharacteristicHandler false 3 world_on in
  inflight (loadState w) = inflight w ++ [PollTask] /\
  immediateRequests (queue (loadState w)) = [SetOnTask false 3] /\
  device_calls (loadState w) =
    device_calls w ++ [("/zeroconf/info", JObj [("data", JObj [])])] /\
  iteration (loadState w) = loadState w.
Proof.
  intros w. apply (poll_overtakes_waiting_set w (SetOnTask false 3) []); reflexivity.
Defined.

(** X10: [log.error] is reached by failed polls, and by nothing else.  A
    step that settles a poll whose [getOn] fails logs the reason of that
    failure, once; every other step logs no error.  In particular a
    rejected set is not logged: the set closure ends in [.catch(callback)],
    so the rejection goes to HomeKit's callback and the closure itself
    settles well. *)
Theorem errors_logged_only_for_polls (w w' : World) (ev : Event) :
  step w ev = Some w' ->
  (forall i r e,
     ev = Settle i r -> inflight w !! i = Some PollTask ->
     getOn_settled r = Rejected e ->
     errors_logged w' = errors_logged w ++ [e] /\ out w' = out w ++ [LogError e]) /\
  (~ (exists i r e,
        ev = Settle i r /\ inflight w !! i = Some PollTask /\
        getOn_settled r = Rejected e) ->
   errors_logged w' = errors_logged w) /\
  (forall i e value callback,
     ev = Settle i (Rejected e) ->
     inflight w !! i = Some (SetOnTask value callback) ->
     errors_logged w' = errors_logged w /\
     out w' = out w ++ [SetCallback callback (Some e)]).
Proof.
  intros Hs. split; [|split].
  - intros i r e -> Hin Hr. simpl in Hs. rewrite Hin in Hs. unfold resume in Hs.
    rewrite Hr in Hs. injection Hs as <-. split; [|reflexivity].
    unfold errors_logged. simpl. rewrite omap_app. reflexivity.
  - intros Hno. destruct ev as [d|i|i|i r|value callback|callback]; simpl in Hs.
    + destruct (0 <=? d); [|discriminate Hs]. injection Hs as <-. reflexivity.
    + destruct (intervals w !! i) as [t|]; [|discriminate Hs].
      destruct (next_due t <=? now w); [|discriminate Hs]. injection Hs as <-.
      clear Hno. destruct_world w.
      destruct (callback_of t); unfold fire, iteration, loadState, attempt; simpl.
      * destruct w_busy; [reflexivity|].
        destruct w_iq as [|cb rest].
        -- destruct w_rq as [|cb rest]; [reflexivity|].
           destruct cb; unfold errors_logged; simpl; rewrite !omap_app; simpl;
             rewrite !app_nil_r; reflexivity.
        -- destruct cb; unfold errors_logged; simpl; rewrite !omap_app; simpl;
             rewrite !app_nil_r; reflexivity.
      * destruct w_busy; simpl; [reflexivity|].
        unfold errors_logged; simpl; rewrite !omap_app; simpl; rewrite !app_nil_r;
          reflexivity.
    + destruct (timeouts w !! i) as [due|]; [|discriminate Hs].
      destruct (due <=? now w); [|discriminate Hs]. injection Hs as <-. reflexivity.
    + destruct (inflight w !! i) as [cb|] eqn:Hin; [|discriminate Hs].
      unfold resume in Hs. destruct cb as [value callback|].
      * destruct r as [body|e]; injection Hs as <-; unfold errors_logged; simpl;
          rewrite omap_app; simpl; apply app_nil_r.
      * destruct (getOn_settled r) as [b|e] eqn:Hr; simpl in Hs.
        -- destruct (decide (state w = Some b)); injection Hs as <-;
             unfold errors_logged; simpl; rewrite ?omap_app; simpl;
             rewrite ?app_nil_r; reflexivity.
        -- exfalso. apply Hno. exists i, r, e. repeat split; assumption.
    + injection Hs as <-. unfold errors_logged. simpl. rewrite !omap_app. simpl.
      rewrite !app_nil_r. reflexivity.
    + injection Hs as <-. unfold errors_logged. simpl. rewrite !omap_app. simpl.
      rewrite !app_nil_r. reflexivity.
  - intros i e value callback -> Hin. simpl in Hs. rewrite Hin in Hs. simpl in Hs.
    injection Hs as <-. split; [|reflexivity].
    unfold errors_logged. simpl. rewrite omap_app. simpl. apply app_nil_r.
Qed.

Lemma errors_logged_only_for_polls_witness :
  let polling := run PollTask world_on in
  let failure := Settle 0 (Rejected (AxiosError "ETIMEDOUT")) in
  let after_poll := default polling (step polling failure) in
  (errors_logged after_poll = errors_logged polling ++ [AxiosError "ETIMEDOUT"] /\
   out after_poll = out polling ++ [LogError (AxiosError "ETIMEDOUT")]) /\
  (errors_logged world_cooling = errors_logged world_running /\
   out world_cooling =
     out world_running ++ [SetCallback 7 (Some (AxiosError "ETIMEDOUT"))]) /\
  errors_logged (with_now (now world_on + 5) world_on) = errors_logged world_on.
Proof.
  intros polling failure after_poll. split; [|split].
  - destruct (errors_logged_only_for_polls polling after_poll failure) as (H & _).
    + vm_compute. reflexivity.
    + apply (H 0%nat (Rejected (AxiosError "ETIMEDOUT")) (AxiosError "ETIMEDOUT"));
        reflexivity.
  - destruct (errors_logged_only_for_polls world_running world_cooling failure)
      as (_ & _ & H).
    + vm_compute. reflexivity.
    + apply (H 0%nat (AxiosError "ETIMEDOUT") true 7%nat); reflexivity.
  - destruct (errors_logged_only_for_polls world_on
                (with_now (now world_on + 5) world_on) (Advance 5)) as (_ & H & _).
    + reflexivity.
    + apply H. intros (i & r & e & Hev & _). discriminate Hev.
Defined.

(** ** What the device is sent and what is read back *)

(** X12: what [setOn] writes, [getOn] reads back: an answer that is not an
    error and whose [data.switch] is the string [setOn(value)] put in its
    request makes [getOn] return [value]. *)
Theorem switch_round_trip (value : bool) (body : JsVal) :
  nullish body = false ->
  truthy (prop_of body f_error) = false ->
  prop_of (prop_of body f_data) f_switch
    = prop_of (prop_of (switch_body value) f_data) f_switch ->
  getOn_settled (Fulfilled body) = Fulfilled value.
Proof.
  intros Hb He Hs. rewrite getOn_settled_cases, Hb, He.
  destruct (nullish (prop_of body f_data)) eqn:Hd.
  - destruct (prop_of body f_data); simpl in Hd; try discriminate Hd;
      destruct value; discriminate Hs.
  - rewrite Hs. destruct value; reflexivity.
Qed.

Lemma switch_round_trip_witness :
  getOn_settled (Fulfilled (info_body "off")) = Fulfilled false.
Proof. apply (switch_round_trip false (info_body "off")); reflexivity. Defined.

(** X13: [getOn] reads off, without failing, whenever [data] is there but is
    not an object: a [data] sent as a JSON string, a number or an array has
    no [switch], and [undefined === "on"] is false whatever the text
    says. *)
Theorem getOn_data_not_object (body : JsVal) :
  nullish body = false ->
  truthy (prop_of body f_error) = false ->
  nullish (prop_of body f_data) = false ->
  is_object (prop_of body f_data) = false ->
  getOn_settled (Fulfilled body) = Fulfilled false.
Proof.
  intros Hb He Hd Ho. rewrite getOn_settled_cases, Hb, He, Hd.
  destruct (prop_of body f_data); try discriminate Ho; reflexivity.
Qed.

Lemma getOn_data_not_object_witness :
  getOn_settled
    (Fulfilled (JObj [("seq", JNum 2); ("error", JNum 0);
                      ("data", JStr "switch: on")]))
  = Fulfilled false.
Proof. apply getOn_data_not_object; reflexivity. Defined.

(** ** The two timers *)

Lemma fire_keeps_clock (cb : IntervalCallback) (w : World) :
  intervals (fire cb w) = intervals w /\ now (fire cb w) = now w.
Proof.
  destruct_world w. destruct cb; unfold fire, iteration, loadState, attempt; simpl.
  - destruct w_busy; [split; reflexivity|].
    destruct w_iq as [|cb rest].
    + destruct w_rq as [|cb rest]; [split; reflexivity|]. destruct cb; split; reflexivity.
    + destruct cb; split; reflexivity.
  - destruct w_busy; split; reflexivity.
Qed.

Lemma step_intervals (w w' : World) (ev : Event) :
  step w ev = Some w' ->
  now w <= now w' /\
  ((intervals w' = intervals w /\ forall i, ev <> FireInterval i) \/
   exists i t, ev = FireInterval i /\ intervals w !! i = Some t /\
     next_due t <= now w /\ now w' = now w /\
     intervals w' =
       <[i := mkInterval (now w + period t) (period t) (callback_of t)]> (intervals w)).
Proof.
  intros Hs. destruct ev as [d|i|i|i r|value callback|callback]; simpl in Hs.
  - destruct (0 <=? d) eqn:Hd; [|discriminate Hs]. injection Hs as <-.
    apply Z.leb_le in Hd. simpl. split; [lia|]. left. split; [reflexivity|discriminate].
  - destruct (intervals w !! i) as [t|] eqn:Hi; [|discriminate Hs].
    destruct (next_due t <=? now w) eqn:Hdue; [|discriminate Hs]. injection Hs as <-.
    apply Z.leb_le in Hdue.
    destruct (fire_keeps_clock (callback_of t)
                (with_intervals
                   (<[i := mkInterval (now w + period t) (period t) (callback_of t)]>
                      (intervals w)) w)) as [HI HN].
    split; [rewrite HN; simpl; lia|]. right. exists i, t.
    split; [reflexivity|]. split; [exact Hi|]. split; [exact Hdue|].
    split; [rewrite HN; reflexivity|]. rewrite HI. reflexivity.
  - destruct (timeouts w !! i) as [due|]; [|discriminate Hs].
    destruct (due <=? now w); [|discriminate Hs]. injection Hs as <-. simpl.
    split; [lia|]. left. split; [reflexivity|discriminate].
  - destruct (inflight w !! i) as [cb|] eqn:Hin; [|discriminate Hs].
    unfold resume in Hs.
    assert (H : now w' = now w /\ intervals w' = intervals w).
    { destruct cb as [value callback|].
      - destruct r as [body|e]; injection Hs as <-; split; reflexivity.
      - destruct (getOn_settled r) as [b|e]; simpl in Hs.
        + destruct (decide (state w = Some b)); injection Hs as <-; split; reflexivity.
        + injection Hs as <-; split; reflexivity. }
    destruct H as [HN HI]. rewrite HN. split; [lia|].
    left. split; [exact HI|discriminate].
  - injection Hs as <-. simpl. split; [lia|]. left. split; [reflexivity|discriminate].
  - injection Hs as <-. simpl. split; [lia|]. left. split; [reflexivity|discriminate].
Qed.

Lemma program_intervals_step (frequency : Z) (w w' : World) (ev : Event) :
  program_intervals frequency w -> step w ev = Some w' -> program_intervals frequency w'.
Proof.
  intros (d1 & d2 & Hi) Hs.
  destruct (step_intervals w w' ev Hs) as [_ [[H _]|(i & t & _ & Ht & _ & _ & H)]].
  - exists d1, d2. rewrite H. exact Hi.
  - rewrite Hi in H, Ht. unfold program_intervals. rewrite H.
    destruct i as [|[|i]]; simpl in Ht; try discriminate Ht; injection Ht as <-; simpl;
      eexists; eexists; reflexivity.
Qed.

Lemma program_intervals_exec (frequency : Z) (evs : list Event) (w w' : World) :
  program_intervals frequency w -> exec w evs = Some w' -> program_intervals frequency w'.
Proof.
  revert w. induction evs as [|ev evs IH]; intros w HP He; simpl in He.
  - injection He as <-. exact HP.
  - destruct (step w ev) as [w1|] eqn:Hs; [|discriminate He].
    apply (IH w1); [eapply program_intervals_step; eassumption|exact He].
Qed.

(** Once interval [i] has fired at time [T] it is due again only at
    [T + p]: over any run the entry keeps its period and a due time of
    [T + p] or later. *)
Lemma rearmed_interval_waits (i : nat) (p T : Z) (evs : list Event) (w w' : World) :
  0 <= p ->
  (exists t, intervals w !! i = Some t /\ period t = p /\ T + p <= next_due t) ->
  exec w evs = Some w' ->
  exists t, intervals w' !! i = Some t /\ period t = p /\ T + p <= next_due t.
Proof.
  intros Hp. revert w. induction evs as [|ev evs IH]; intros w HQ He; simpl in He.
  - injection He as <-. exact HQ.
  - destruct (step w ev) as [w1|] eqn:Hs; [|discriminate He].
    apply (IH w1); [|exact He]. destruct HQ as (t & Ht & Hper & Hdue).
    destruct (step_intervals w w1 ev Hs) as [_ [[H _]|(j & tj & _ & Hj & Hjd & _ & H)]].
    + exists t. rewrite H. repeat split; assumption.
    + rewrite H. destruct (decide (j = i)) as [->|Hne].
      * rewrite Hj in Ht. injection Ht as ->.
        eexists. split.
        -- apply list_lookup_insert_eq. apply lookup_lt_Some in Hj. exact Hj.
        -- simpl. split; [exact Hper|]. lia.
      * exists t. rewrite list_lookup_insert_ne by exact Hne. repeat split; assumption.
Qed.

Lemma tick_period_pos (frequency : Z) : 1 <= tick_period frequency.
Proof. apply timer_delay_pos. Qed.

(** X14: the program keeps exactly its two intervals, never cleared and never
    doubled: the tick with the period computed from [frequency] and the
    poller with [POLLING_INTERVAL].  Two runs of the same one are at least
    its period apart: ticks [tick_period] ms, poll attempts 5000 ms. *)
Theorem timers_keep_their_period
    (frequency wt : Z) (evs : list Event) (w : World) (i : nat) (w1 : World)
    (evs' : list Event) (w2 w3 : World) :
  exec (boot frequency wt) evs = Some w ->
  program_intervals frequency w /\
  (step w (FireInterval i) = Some w1 ->
   exec w1 evs' = Some w2 ->
   step w2 (FireInterval i) = Some w3 ->
   (i = 0%nat /\ now w + tick_period frequency <= now w2) \/
   (i = 1%nat /\ now w + POLLING_INTERVAL <= now w2)).
Proof.
  intros He.
  assert (HP : program_intervals frequency w).
  { apply (program_intervals_exec frequency evs (boot frequency wt)); [|exact He].
    eexists. eexists. reflexivity. }
  split; [exact HP|]. intros Hs1 He' Hs3.
  destruct (step_intervals w w1 _ Hs1) as [_ [[_ Hno]|(j & t & Hj & Ht & _ & _ & HI)]];
    [exfalso; apply (Hno i); reflexivity|].
  injection Hj as <-.
  assert (Hper : 0 <= period t /\
                 ((i = 0%nat /\ period t = tick_period frequency) \/
                  (i = 1%nat /\ period t = POLLING_INTERVAL))).
  { destruct HP as (d1 & d2 & Hints). rewrite Hints in Ht.
    destruct i as [|[|i]]; simpl in Ht; try discriminate Ht; injection Ht as <-; simpl.
    - split; [pose proof (tick_period_pos frequency); lia|]. left. split; reflexivity.
    - split; [unfold POLLING_INTERVAL; lia|]. right. split; reflexivity. }
  destruct Hper as [Hp0 Hcase].
  assert (HQ : exists t1, intervals w1 !! i = Some t1 /\ period t1 = period t /\
                          now w + period t <= next_due t1).
  { rewrite HI. eexists. split.
    - apply list_lookup_insert_eq. apply lookup_lt_Some in Ht. exact Ht.
    - simpl. split; [reflexivity|lia]. }
  destruct (rearmed_interval_waits i (period t) (now w) evs' w1 w2 Hp0 HQ He')
    as (t2 & Ht2 & _ & Hdue2).
  destruct (step_intervals w2 w3 _ Hs3) as [_ [[_ Hno]|(j & t3 & Hj & Ht3 & Hd3 & _ & _)]];
    [exfalso; apply (Hno i); reflexivity|].
  injection Hj as <-. rewrite Ht2 in Ht3. injection Ht3 as <-.
  destruct Hcase as [[-> Hc]|[-> Hc]]; [left|right]; (split; [reflexivity|]); lia.
Qed.

Lemma timers_keep_their_period_witness :
  let evs' := [HomeKitSet true 7; Advance 500] in
  let w1 := default world0 (exec world0 [Advance 500; FireInterval 0]) in
  let w2 := default w1 (exec w1 evs') in
  program_intervals 2 (default world0 (exec world0 [Advance 500])) /\
  500 + tick_period 2 <= now w2.
Proof.
  intros evs' w1 w2.
  destruct (timers_keep_their_period 2 100 [Advance 500]
              (default world0 (exec world0 [Advance 500])) 0 w1 evs' w2
              (default w2 (step w2 (FireInterval 0)))) as [H1 H2].
  - vm_compute. reflexivity.
  - split; [exact H1|].
    destruct H2 as [[_ H]|[E _]]; try (vm_compute; reflexivity); [|discriminate E].
    exact H.
Defined.

Lemma timeout_of_neg (frequency : Z) :
  frequency < 0 -> exists t, timeout_of frequency = Fin t /\ t <= 0.
Proof.
  intros Hf. unfold timeout_of.
  destruct (frequency =? 0) eqn:E; [apply Z.eqb_eq in E; lia|].
  eexists. split; [reflexivity|].
  set (x := (inject_Z 1000 / inject_Z frequency)%Q).
  pose proof (Qceiling_lt x) as Hlt.
  destruct frequency as [|p|p]; try lia.
  unfold Qlt in Hlt. simpl in Hlt.
  pose proof (Pos2Z.is_pos (1 * p)) as Hk.
  set (c := Qceiling x) in *. nia.
Qed.

(** X15: the tick never runs slower than once a second nor faster than once a
    millisecond: the period lies in [1, 1000] ms for every frequency.  It
    is 1 ms, the fastest Node allows, exactly when the frequency is 1000 or
    more, or is zero or negative (where the computed timeout is out of
    range); and among positive frequencies a higher one never gives a
    longer period. *)
Theorem tick_period_bounds (frequency frequency' : Z) :
  1 <= tick_period frequency <= 1000 /\
  (tick_period frequency = 1 <-> frequency <= 0 \/ 1000 <= frequency) /\
  (0 < frequency -> frequency <= frequency' ->
   tick_period frequency' <= tick_period frequency).
Proof.
  assert (Hpos : forall f, 0 < f ->
            exists t, tick_period f = t /\ 1 <= t <= 1000 /\
                      (t - 1) * f < 1000 <= t * f).
  { intros f Hf. destruct (timeout_of_pos f Hf) as (t & Ht & Hlo & Hhi).
    exists t. unfold tick_period. rewrite Ht.
    assert (1 <= t <= 1000) by nia.
    rewrite timer_delay_in_range by (unfold TIMEOUT_MAX; lia).
    repeat split; lia. }
  assert (Hnonpos : forall f, f <= 0 -> tick_period f = 1).
  { intros f Hf. unfold tick_period.
    destruct (Z.eq_dec f 0) as [->|Hne]; [reflexivity|].
    destruct (timeout_of_neg f) as (t & Ht & Hle); [lia|].
    rewrite Ht. unfold timer_delay.
    destruct (1 <=? t) eqn:E; [apply Z.leb_le in E; lia|reflexivity]. }
  destruct (Z_lt_le_dec 0 frequency) as [Hf|Hf].
  - destruct (Hpos frequency Hf) as (t & Ht & Hr & Hlo & Hhi). rewrite Ht.
    split; [exact Hr|]. split.
    + split; [intros ->; right; lia|intros [H|H]; [lia|nia]].
    + intros _ Hle. destruct (Hpos frequency') as (t' & Ht' & Hr' & Hlo' & Hhi'); [lia|].
      rewrite Ht'. nia.
  - rewrite (Hnonpos frequency Hf). split; [lia|]. split.
    + split; [intros _; left; exact Hf|reflexivity].
    + intros H. lia.
Qed.

Lemma tick_period_bounds_witness :
  tick_period 3 <= tick_period 2.
Proof.
  apply (proj2 (proj2 (tick_period_bounds 2 3))); lia.
Defined.

(** X11: [updateValue] is reached by polls that see a change, and by
    nothing else.  A step that settles a poll whose [getOn] succeeds with a
    value other than the cache notifies HomeKit once, with that value, which
    the cache then holds; every other step raises no notification.  In
    particular the settling of a set, accepted or rejected, never
    notifies. *)
Theorem notifications_only_from_polls (w w' : World) (ev : Event) :
  step w ev = Some w' ->
  (forall i r b,
     ev = Settle i r -> inflight w !! i = Some PollTask ->
     getOn_settled r = Fulfilled b -> state w <> Some b ->
     notifications w' = notifications w ++ [b] /\ state w' = Some b /\
     out w' = out w ++ [UpdateValue b; Log (ExternalStateChange b)]) /\
  (~ (exists i r b,
        ev = Settle i r /\ inflight w !! i = Some PollTask /\
        getOn_settled r = Fulfilled b /\ state w <> Some b) ->
   notifications w' = notifications w) /\
  (forall i r value callback,
     ev = Settle i r -> inflight w !! i = Some (SetOnTask value callback) ->
     notifications w' = notifications w).
Proof.
  intros Hs. split; [|split].
  - intros i r b -> Hin Hr Hne.
    destruct (poll_settle w i r b Hin Hr) as (w1 & Hs1 & _ & Hdiff).
    rewrite Hs1 in Hs. injection Hs as <-.
    destruct (Hdiff Hne) as [Hst Ho]. split; [|split; assumption].
    unfold notifications. rewrite Ho, omap_app. reflexivity.
  - intros Hno. destruct (is_settle ev) eqn:Hev;
      [|exact (step_notifications w w' ev Hs Hev)].
    destruct ev as [d|i|i|i r|value callback|callback]; try discriminate Hev.
    simpl in Hs. destruct (inflight w !! i) as [cb|] eqn:Hin; [|discriminate Hs].
    unfold resume in Hs. destruct cb as [value callback|].
    + destruct r as [body|e]; injection Hs as <-; unfold notifications; simpl;
        rewrite omap_app; simpl; apply app_nil_r.
    + destruct (getOn_settled r) as [b|e] eqn:Hr; simpl in Hs.
      * destruct (decide (state w = Some b)) as [Heq|Hne]; injection Hs as <-.
        -- reflexivity.
        -- exfalso. apply Hno. exists i, r, b. repeat split; assumption.
      * injection Hs as <-. unfold notifications. simpl. rewrite omap_app. simpl.
        apply app_nil_r.
  - intros i r value callback -> Hin. simpl in Hs. rewrite Hin in Hs. simpl in Hs.
    destruct r as [body|e]; injection Hs as <-; unfold notifications; simpl;
      rewrite omap_app; simpl; apply app_nil_r.
Qed.

Lemma notifications_only_from_polls_witness :
  let polling := run PollTask world_on in
  let answer := Settle 0 (Fulfilled (info_body "off")) in
  let after_poll := default polling (step polling answer) in
  let accepted := Settle 0 (Fulfilled (JObj [("error", JNum 0)])) in
  let after_set := default world_running (step world_running accepted) in
  (notifications after_poll = notifications polling ++ [false] /\
   state after_poll = Some false /\
   out after_poll =
     out polling ++ [UpdateValue false; Log (ExternalStateChange false)]) /\
  notifications after_set = notifications world_running /\
  notifications (with_now (now world_on + 5) world_on) = notifications world_on.
Proof.
  intros polling answer after_poll accepted after_set. split; [|split].
  - destruct (notifications_only_from_polls polling after_poll answer) as (H & _).
    + vm_compute. reflexivity.
    + apply (H 0%nat (Fulfilled (info_body "off")) false); try reflexivity.
      discriminate.
  - destruct (notifications_only_from_polls world_running after_set accepted)
      as (_ & _ & H).
    + vm_compute. reflexivity.
    + apply (H 0%nat (Fulfilled (JObj [("error", JNum 0)])) true 7%nat); reflexivity.
  - destruct (notifications_only_from_polls world_on
                (with_now (now world_on + 5) world_on) (Advance 5)) as (_ & H & _).
    + reflexivity.
    + apply H. intros (i & r & b & Hev & _). discriminate Hev.
Defined.
